(** * Object handler of the S3 file manager: index store, listing, creation,
      bulk deletion and bulk download

    Shallow embedding of
    [src/main-process/ipc-handlers/main-api/object-handler.js]
    ([getObjects], [createFolder], [createFile], [downloadObjects],
    [deleteObjects]).  The handlers are asynchronous JavaScript threading a
    database (the object index), the remote bucket and the local file system;
    they are embedded in a state-and-exception monad over an explicit
    [World].  Sequelize filter objects are kept as a small syntax ([Where])
    with an evaluator, as the handlers build them as data. *)

From Stdlib Require Import List String Ascii ZArith Bool Arith Lia.
From Stdlib Require Import Permutation Sorted.
Import ListNotations.

Local Open Scope string_scope.
Local Open Scope list_scope.

(** ** JavaScript string primitives used by the handlers *)

Module JsString.

(** [s.split(sep)] for a one-character separator: never returns the empty
    array, and yields one more piece than there are separators. *)
Fixpoint split (sep : ascii) (s : string) : list string :=
  match s with
  | EmptyString => [EmptyString]
  | String c s' =>
      if Ascii.eqb c sep then EmptyString :: split sep s'
      else match split sep s' with
           | piece :: pieces => String c piece :: pieces
           | [] => [String c EmptyString]
           end
  end.

(** Number of occurrences of a character. *)
Fixpoint count (ch : ascii) (s : string) : nat :=
  match s with
  | EmptyString => 0
  | String c s' => (if Ascii.eqb c ch then 1 else 0) + count ch s'
  end.

(** [s.slice(n)] for [0 <= n]. *)
Fixpoint drop (n : nat) (s : string) : string :=
  match n, s with
  | O, _ => s
  | S _, EmptyString => EmptyString
  | S n', String _ s' => drop n' s'
  end.

(** [s.replace(pattern, replacement)] with a string pattern: only the first
    (leftmost) occurrence is replaced; the empty pattern matches at index 0. *)
Fixpoint replace (pattern replacement s : string) : string :=
  if String.prefix pattern s then replacement ++ drop (String.length pattern) s
  else match s with
       | EmptyString => EmptyString
       | String c s' => String c (replace pattern replacement s')
       end.

(** [pieces.join(sep)]. *)
Definition join (sep : string) (pieces : list string) : string :=
  String.concat sep pieces.

(** Truthiness of a string value ([undefined] is represented by [""], which
    is falsy as well). *)
Definition truthy (s : string) : bool := negb (String.eqb s "").

End JsString.

(** ** Node's [path] module, POSIX flavour *)

Module NodePath.

Definition sep : ascii := "/"%char.

(** [normalizeString]: resolves ["."] and [".."] segments and drops empty
    ones; [stack] holds the segments kept so far, innermost first. *)
Fixpoint normalizeSegments (allowAboveRoot : bool) (segments stack : list string)
  : list string :=
  match segments with
  | [] => rev stack
  | seg :: rest =>
      if String.eqb seg "" || String.eqb seg "." then
        normalizeSegments allowAboveRoot rest stack
      else if String.eqb seg ".." then
        match stack with
        | top :: below =>
            if String.eqb top ".."
            then normalizeSegments allowAboveRoot rest (seg :: stack)
            else normalizeSegments allowAboveRoot rest below
        | [] =>
            if allowAboveRoot
            then normalizeSegments allowAboveRoot rest [seg]
            else normalizeSegments allowAboveRoot rest []
        end
      else normalizeSegments allowAboveRoot rest (seg :: stack)
  end.

Definition isAbsolute (p : string) : bool := String.prefix "/" p.

Definition lastIsSep (p : string) : bool :=
  match rev (list_ascii_of_string p) with
  | c :: _ => Ascii.eqb c sep
  | [] => false
  end.

(** [path.normalize(p)]. *)
Definition normalize (p : string) : string :=
  if String.eqb p "" then "."
  else
    let absolute := isAbsolute p in
    let trailing := lastIsSep p in
    let body :=
      JsString.join "/"
        (normalizeSegments (negb absolute) (JsString.split sep p) []) in
    if String.eqb body "" then
      if absolute then "/" else if trailing then "./" else "."
    else
      let body := if trailing then (body ++ "/")%string else body in
      if absolute then ("/" ++ body)%string else body.

(** [path.join(...args)]: the non-empty arguments joined by ["/"], then
    normalized. *)
Definition join (args : list string) : string :=
  match filter JsString.truthy args with
  | [] => "."
  | kept => normalize (JsString.join "/" kept)
  end.

(** [path.basename(p)]: the last non-empty segment. *)
Definition basename (p : string) : string :=
  last (filter JsString.truthy (JsString.split sep p)) "".

End NodePath.

(** ** Shared constants and errors *)

(** [shared/constants/object-type]. *)
Inductive OBJECT_TYPE := FOLDER | FILE.

(** [shared/constants/storage-class]: only [STANDARD] is used here. *)
Inductive STORAGE_CLASS := STANDARD.

(** [shared/constants/frontend-operation-code]. *)
Inductive FRONTEND_OPERATION_CODE := SHOW_OBJECT_DUPLICATED_ALERT.

Definition OBJECT_TYPE_eqb (a b : OBJECT_TYPE) : bool :=
  match a, b with
  | FOLDER, FOLDER | FILE, FILE => true
  | _, _ => false
  end.

(** The message templates of the [NotFoundError]s thrown by the handlers. *)
Inductive Message :=
| MsgNotFoundObject (after : Z)          (* `not found object ${after}` *)
| MsgNotFoundParent (dirname : string)   (* `not found parent "${object.dirname}"` *)
| MsgNotFoundQuoted (id : Z)             (* `not found "${id}"` *)
| MsgNotFoundObjectQuoted (id : Z)       (* `not found object "${id}"` *)
| MsgNotFoundAll (ids : list Z).         (* `not found "${ids}"` *)

Inductive Error :=
| NotFoundError (message : Message)
| ConflictError (cause : Error)
    (frontendOperationCode : FRONTEND_OPERATION_CODE)
    (frontendOperationValue : string)
| UniqueConstraintError (errors : list string) (* [path] of each error item *)
| DatabaseError (message : string)
| RemoteError (message : string).

(** ** [common/utils]: keyword parsing and LIKE patterns *)

Module Utils.

(** A LIKE pattern, already tokenised: [Wildcard] is SQL's [%], [Literal c]
    matches the character [c] as the index database compares characters. *)
Inductive LikeToken := Wildcard | Literal (c : ascii).

(** The index is an SQLite database, and SQLite's LIKE compares the ASCII
    letters regardless of case (and every other byte exactly): [foldCase]
    maps ["A"] .. ["Z"] to ["a"] .. ["z"]. *)
Definition foldCase (c : ascii) : ascii :=
  let n := nat_of_ascii c in
  if Nat.leb 65 n && Nat.leb n 90 then ascii_of_nat (n + 32) else c.

Definition sameChar (a b : ascii) : bool :=
  Ascii.eqb (foldCase a) (foldCase b).

Fixpoint foldString (s : string) : string :=
  match s with
  | EmptyString => EmptyString
  | String c s' => String (foldCase c) (foldString s')
  end.

(** Whether [subject] begins with [value] up to the case of ASCII letters:
    what [subject LIKE 'value%'] decides. *)
Definition likePrefix (value subject : string) : bool :=
  String.prefix (foldString value) (foldString subject).

Definition LikePattern := list LikeToken.

(** The raw pattern text given as [start]: each [%] is a wildcard. *)
Definition tokensOfRaw (raw : string) : LikePattern :=
  map (fun c => if Ascii.eqb c "%"%char then Wildcard else Literal c)
      (list_ascii_of_string raw).

(** Modelled from the spec: [utils.generateLikeSyntax] ([common/utils.js] is
    not among the sources).  It "builds a prefix/substring match pattern for
    the given fragment; [start] defaults to an exact-prefix anchor but may be
    overridden to an unanchored substring search".  The fragment is matched
    literally and followed by a wildcard; [start] is what precedes it: nothing
    (the anchor, also the default) or a wildcard. *)
Definition generateLikeSyntax (value : string) (start : option string)
  : LikePattern :=
  tokensOfRaw (match start with Some s => s | None => EmptyString end)
    ++ map Literal (list_ascii_of_string value) ++ [Wildcard].

(** SQL's [subject LIKE pattern] on tokenised patterns. *)
Fixpoint likeChars (pattern : LikePattern) : list ascii -> bool :=
  match pattern with
  | [] => fun subject => match subject with [] => true | _ :: _ => false end
  | Literal c :: pattern' =>
      fun subject =>
        match subject with
        | c' :: subject' => sameChar c c' && likeChars pattern' subject'
        | [] => false
        end
  | Wildcard :: pattern' =>
      fix skip (subject : list ascii) : bool :=
        likeChars pattern' subject
        || match subject with
           | [] => false
           | _ :: subject' => skip subject'
           end
  end.

Definition like (subject : string) (pattern : LikePattern) : bool :=
  likeChars pattern (list_ascii_of_string subject).

(** Modelled from the spec: [utils.parseKeyword] ([common/utils.js] is not
    among the sources).  It "splits free-text search input into required
    (plus) and excluded (minus) substrings; a term prefixed with a negation
    marker (e.g. -term) becomes a minus term, [...] stripped of the marker".
    Terms are the non-empty pieces between spaces. *)
Definition parseKeyword (keyword : string) : list string * list string :=
  let terms := filter JsString.truthy (JsString.split " "%char keyword) in
  let isMinus (term : string) :=
    match term with
    | String "-"%char _ => true
    | _ => false
    end in
  (filter (fun term => negb (isMinus term)) terms,
   map (JsString.drop 1) (filter isMinus terms)).

End Utils.

(** ** [models/data/object-model]: the rows of the object index *)

Record ObjectModel := {
  id : Z;
  type : OBJECT_TYPE;
  path : string;
  storageClass : option STORAGE_CLASS;
  size : option Z;
  lastModified : option Z
}.

(** The fields given to [new ObjectModel({...})]; the id is assigned by the
    first [save]. *)
Record ObjectDraft := {
  draftType : OBJECT_TYPE;
  draftPath : string;
  draftStorageClass : option STORAGE_CLASS
}.

Module Path.

(** The path without one trailing ["/"] (the marker of a folder). *)
Definition stripTrailingSlash (p : string) : string :=
  match rev (list_ascii_of_string p) with
  | c :: before =>
      if Ascii.eqb c "/"%char then string_of_list_ascii (rev before) else p
  | [] => p
  end.

(** Modelled from the spec: the [dirname] column, which the model derives
    from [path] ([models/data/object-model.js] is not among the sources):
    "the parent directory portion (without trailing slash); empty string for
    root-level objects". *)
Definition dirname (p : string) : string :=
  JsString.join "/"
    (removelast (JsString.split "/"%char (stripTrailingSlash p))).

(** Modelled from the spec: the [basename] column, derived from [path]: "the
    final path segment (folder name with trailing slash stripped, or file
    name)". *)
Definition basename (p : string) : string :=
  last (JsString.split "/"%char (stripTrailingSlash p)) EmptyString.

End Path.

Definition dirname (o : ObjectModel) : string := Path.dirname (path o).
Definition basename (o : ObjectModel) : string := Path.basename (path o).

(** ** Sequelize filter objects *)

(** The [where] objects the handlers build: a column compared to a value, or
    [Op.and] / [Op.or] over a list of conditions.  An object with several keys
    is the conjunction of its entries. *)
#[warnings="-register-all"]
Inductive Where :=
| IdEq (v : Z)                         (* {id: v} *)
| IdGt (v : Z)                         (* {id: {[Op.gt]: v}} *)
| IdIn (vs : list Z)                   (* {id: {[Op.in]: vs}} *)
| TypeEq (t : OBJECT_TYPE)             (* {type: t} *)
| TypeGte (t : OBJECT_TYPE)            (* {type: {[Op.gte]: t}} *)
| BasenameEq (s : string)              (* {basename: s} *)
| BasenameGt (s : string)              (* {basename: {[Op.gt]: s}} *)
| DirnameEq (s : string)               (* {dirname: s} *)
| DirnameLike (p : Utils.LikePattern)  (* {dirname: {[Op.like]: p}} *)
| PathEq (s : string)                  (* {path: s} *)
| PathLike (p : Utils.LikePattern)     (* {path: {[Op.like]: p}} *)
| PathNotLike (p : Utils.LikePattern)  (* {path: {[Op.notLike]: p}} *)
| OpAnd (conditions : list Where)
| OpOr (conditions : list Where).

(** The columns a listing is ordered by (always ascending here). *)
Inductive Column := ColType | ColBasename | ColId.

Record Query := {
  where_ : Where;
  order : list Column;
  limit : option nat
}.

(** ** The world the handlers act on *)

(** What [s3.headObject] resolves to. *)
Record Headers := {
  ContentType : option string;
  ContentLength : Z;
  LastModified : Z
}.

(** What [s3.getObject] resolves to: the announced length, and whether the
    body stream ends or emits an error. *)
Record Download := {
  downloadLength : Z;
  streamError : option Error
}.

(** Calls received by the remote adapter [common/s3]. *)
Inductive RemoteCall :=
| PutObject (path : string)
| Upload (path : string) (contentType : string)
| HeadObject (path : string)
| GetObject (path : string)
| DeleteObjects (paths : list string).

Record World := {
  table : list ObjectModel;       (* the rows of the object index *)
  nextId : Z;                     (* the next autoincrement id *)
  remoteCalls : list RemoteCall;  (* calls made to the adapter, oldest first *)
  localWrites : list string       (* files opened for writing, oldest first *)
}.

(** The collaborators the handlers do not control: how the remote bucket
    answers each call, whether the update of a row fails (a [DatabaseError]),
    and the [mime-types] lookup. *)
Record Env := {
  putObjectAnswer : string -> option Error;
  uploadAnswer : string -> option Error;
  headObjectAnswer : string -> Error + Headers;
  getObjectAnswer : string -> Error + Download;
  deleteObjectsAnswer : list string -> option Error;
  updateAnswer : ObjectModel -> option Error;
  mimeLookup : string -> option string
}.

(** ** The monad of the handlers: state and exceptions *)

Inductive Outcome (A : Type) :=
| Returned (a : A)
| Thrown (e : Error).
Arguments Returned {A} a.
Arguments Thrown {A} e.

Definition M (A : Type) : Type := World -> Outcome A * World.

Definition ret {A} (a : A) : M A := fun w => (Returned a, w).

Definition throw {A} (e : Error) : M A := fun w => (Thrown e, w).

Definition bind {A B} (m : M A) (k : A -> M B) : M B :=
  fun w =>
    match m w with
    | (Returned a, w') => k a w'
    | (Thrown e, w') => (Thrown e, w')
    end.

(** [try { m } catch (error) { handler(error) }]: the state reached when the
    exception was thrown is kept. *)
Definition tryCatch {A} (m : M A) (handler : Error -> M A) : M A :=
  fun w =>
    match m w with
    | (Returned a, w') => (Returned a, w')
    | (Thrown e, w') => handler e w'
    end.

(** [await Promise.all([m1, m2])]: both tasks are started, so the second one
    runs whatever the first one's fate; the first rejection is the result. *)
Definition promiseAll2 {A B} (m1 : M A) (m2 : M B) : M (A * B) :=
  fun w =>
    let (o1, w1) := m1 w in
    let (o2, w2) := m2 w1 in
    match o1, o2 with
    | Returned a, Returned b => (Returned (a, b), w2)
    | Thrown e, _ => (Thrown e, w2)
    | Returned _, Thrown e => (Thrown e, w2)
    end.

Declare Scope handler_scope.
Delimit Scope handler_scope with handler.
Notation "x <- m ;; k" := (bind m (fun x => k))
  (at level 61, m at next level, right associativity) : handler_scope.
Notation "m ;; k" := (bind m (fun _ => k))
  (at level 61, right associativity) : handler_scope.
Local Open Scope handler_scope.

(** [items.forEach(f)] where [f] may throw. *)
Fixpoint forEach {A} (items : list A) (f : A -> M unit) : M unit :=
  match items with
  | [] => ret tt
  | item :: rest => f item ;; forEach rest f
  end.

(** [await Promise.all(items.map(item => limit(() => task(item))))] with
    [limit = pLimit(1)]: the tasks run one at a time, in order.  A rejected
    task does not stop the queue: the later tasks still run, and the first
    rejection is the result. *)
Fixpoint promiseAllLimit1 {A} (items : list A) (task : A -> M unit) : M unit :=
  match items with
  | [] => ret tt
  | item :: rest =>
      fun w =>
        let (o1, w1) := task item w in
        let (o2, w2) := promiseAllLimit1 rest task w1 in
        match o1 with
        | Returned _ => (o2, w2)
        | Thrown e => (Thrown e, w2)
        end
  end.

(** ** The index store and the remote adapter *)

Section Handlers.

(** The numeric values of [OBJECT_TYPE] ([shared/constants/object-type.js] is
    not among the sources): the listing orders and compares rows by them. *)
Variable typeValue : OBJECT_TYPE -> Z.

Variable env : Env.

(** Whether a row satisfies a filter object. *)
Fixpoint matches (condition : Where) (o : ObjectModel) : bool :=
  match condition with
  | IdEq v => Z.eqb (id o) v
  | IdGt v => Z.ltb v (id o)
  | IdIn vs => existsb (Z.eqb (id o)) vs
  | TypeEq t => OBJECT_TYPE_eqb (type o) t
  | TypeGte t => Z.leb (typeValue t) (typeValue (type o))
  | BasenameEq s => String.eqb (basename o) s
  | BasenameGt s => String.ltb s (basename o)
  | DirnameEq s => String.eqb (dirname o) s
  | DirnameLike p => Utils.like (dirname o) p
  | PathEq s => String.eqb (path o) s
  | PathLike p => Utils.like (path o) p
  | PathNotLike p => negb (Utils.like (path o) p)
  | OpAnd conditions => forallb (fun c => matches c o) conditions
  | OpOr conditions => existsb (fun c => matches c o) conditions
  end.

Definition compareColumn (c : Column) (a b : ObjectModel) : comparison :=
  match c with
  | ColType => Z.compare (typeValue (type a)) (typeValue (type b))
  | ColBasename => String.compare (basename a) (basename b)
  | ColId => Z.compare (id a) (id b)
  end.

(** [ORDER BY c1 ASC, c2 ASC, ...]: lexicographic. *)
Fixpoint compareOrder (columns : list Column) (a b : ObjectModel) : comparison :=
  match columns with
  | [] => Eq
  | c :: rest =>
      match compareColumn c a b with
      | Eq => compareOrder rest a b
      | decided => decided
      end
  end.

Definition orderLeb (columns : list Column) (a b : ObjectModel) : bool :=
  match compareOrder columns a b with
  | Gt => false
  | _ => true
  end.

(** A stable sort: rows that compare equal keep the order of the table. *)
Fixpoint insertSorted {A} (leb : A -> A -> bool) (x : A) (sorted : list A)
  : list A :=
  match sorted with
  | [] => [x]
  | y :: rest =>
      if leb x y then x :: y :: rest else y :: insertSorted leb x rest
  end.

Definition stableSort {A} (leb : A -> A -> bool) (items : list A) : list A :=
  fold_right (insertSorted leb) [] items.

Definition applyLimit {A} (limit : option nat) (rows : list A) : list A :=
  match limit with
  | Some n => firstn n rows
  | None => rows
  end.

(** The rows a query selects, read from the table. *)
Definition select (q : Query) (rows : list ObjectModel) : list ObjectModel :=
  applyLimit (limit q)
    (stableSort (orderLeb (order q)) (filter (matches (where_ q)) rows)).

(** [ObjectModel.findAll({where, order, limit})]. *)
Definition findAll (q : Query) : M (list ObjectModel) :=
  fun w => (Returned (select q (table w)), w).

(** [ObjectModel.findOne({where})]. *)
Definition findOne (condition : Where) : M (option ObjectModel) :=
  fun w => (Returned (find (matches condition) (table w)), w).

(** Whether a row of the table has the given path. *)
Definition pathTaken (p : string) (rows : list ObjectModel) : bool :=
  existsb (fun o => String.eqb (path o) p) rows.

(** The row a draft becomes once it is given an id. *)
Definition newRow (newId : Z) (draft : ObjectDraft) : ObjectModel :=
  {| id := newId;
     type := draftType draft;
     path := draftPath draft;
     storageClass := draftStorageClass draft;
     size := None;
     lastModified := None |}.

(** Modelled from the spec: the first [object.save()] of a new instance
    ([models/data/object-model.js] is not among the sources).  [path] is
    "unique across all records (enforced by the store)": the insert is
    rejected with a unique-constraint error on [path] when a row has that
    path; otherwise the row gets the next id and is appended. *)
Definition save (draft : ObjectDraft) : M ObjectModel :=
  fun w =>
    if pathTaken (draftPath draft) (table w)
    then (Thrown (UniqueConstraintError ["path"]), w)
    else
      let o := newRow (nextId w) draft in
      (Returned o,
       {| table := table w ++ [o];
          nextId := nextId w + 1;
          remoteCalls := remoteCalls w;
          localWrites := localWrites w |}).

(** [object.save()] of a persisted instance: the row with its id is
    replaced, unless the database refuses the update. *)
Definition update (o : ObjectModel) : M unit :=
  fun w =>
    match updateAnswer env o with
    | Some e => (Thrown e, w)
    | None =>
        (Returned tt,
         {| table := map (fun row => if Z.eqb (id row) (id o) then o else row)
                         (table w);
            nextId := nextId w;
            remoteCalls := remoteCalls w;
            localWrites := localWrites w |})
    end.

(** [ObjectModel.destroy({where})]. *)
Definition destroy (condition : Where) : M unit :=
  fun w =>
    (Returned tt,
     {| table := filter (fun row => negb (matches condition row)) (table w);
        nextId := nextId w;
        remoteCalls := remoteCalls w;
        localWrites := localWrites w |}).

(** [object.destroy()]: deletes the row with the instance's id. *)
Definition destroyInstance (o : ObjectModel) : M unit :=
  destroy (IdEq (id o)).

(** What [object.destroy()] leaves of a table to which the provisional row
    was appended. *)
Definition withoutProvisional (rows : list ObjectModel) (saved : ObjectModel)
  : list ObjectModel :=
  filter (fun row => negb (matches (IdEq (id saved)) row))
         (rows ++ [saved]).

(** A call to the remote adapter: it is recorded, then answered by [env]. *)
Definition remote {A} (call : RemoteCall) (answer : Error + A) : M A :=
  fun w =>
    let w' := {| table := table w;
                 nextId := nextId w;
                 remoteCalls := remoteCalls w ++ [call];
                 localWrites := localWrites w |} in
    match answer with
    | inl e => (Thrown e, w')
    | inr a => (Returned a, w')
    end.

Definition unitAnswer (failure : option Error) : Error + unit :=
  match failure with
  | Some e => inl e
  | None => inr tt
  end.

Definition s3_putObject (p : string) : M unit :=
  remote (PutObject p) (unitAnswer (putObjectAnswer env p)).

Definition s3_upload (p contentType : string) : M unit :=
  remote (Upload p contentType) (unitAnswer (uploadAnswer env p)).

Definition s3_headObject (p : string) : M Headers :=
  remote (HeadObject p) (headObjectAnswer env p).

Definition s3_getObject (p : string) : M Download :=
  remote (GetObject p) (getObjectAnswer env p).

Definition s3_deleteObjects (paths : list string) : M unit :=
  remote (DeleteObjects paths) (unitAnswer (deleteObjectsAnswer env paths)).

(** [fs.createWriteStream(p)]: the file is opened (and truncated). *)
Definition fs_createWriteStream (p : string) : M unit :=
  fun w =>
    (Returned tt,
     {| table := table w;
        nextId := nextId w;
        remoteCalls := remoteCalls w;
        localWrites := localWrites w ++ [p] |}).

(** ** The handlers *)

Record Page := {
  hasNextPage : bool;
  items : list ObjectModel
}.

(** [if (keyword)]: [undefined] and the empty string are falsy. *)
Definition truthyKeyword (keyword : option string) : option string :=
  match keyword with
  | Some k => if JsString.truthy k then Some k else None
  | None => None
  end.

(** [if (after)]: [undefined] and [0] are falsy. *)
Definition truthyAfter (after : option Z) : option Z :=
  match after with
  | Some a => if Z.eqb a 0 then None else Some a
  | None => None
  end.

Definition nonEmpty {A} (l : list A) : bool :=
  match l with
  | [] => false
  | _ :: _ => true
  end.

(** The [keywordConditions] array of [getObjects]. *)
Definition keywordConditionsOf (keyword : option string) : list Where :=
  match truthyKeyword keyword with
  | Some k =>
      let (plus, minus) := Utils.parseKeyword k in
      map (fun plusKeyword =>
             PathLike (Utils.generateLikeSyntax plusKeyword None)) plus
      ++ map (fun minusKeyword =>
                PathNotLike (Utils.generateLikeSyntax minusKeyword None)) minus
  | None => []
  end.

(** The two conditions pushed on [afterConditions] for a cursor row. *)
Definition cursorConditions (cursor : ObjectModel) : list Where :=
  [ OpAnd [TypeGte (type cursor); BasenameGt (basename cursor)];
    OpAnd [TypeGte (type cursor); BasenameEq (basename cursor);
           IdGt (id cursor)] ].

(** The [afterConditions] array of [getObjects]. *)
Definition afterConditionsOf (after : option Z) : M (list Where) :=
  match truthyAfter after with
  | Some a =>
      cursor <- findOne (IdEq a) ;;
      match cursor with
      | None => throw (NotFoundError (MsgNotFoundObject a))
      | Some cursor => ret (cursorConditions cursor)
      end
  | None => ret []
  end.

(** Whether a row passes the cursor: there is no cursor condition, or one
    of them holds. *)
Definition resumes (afterConditions : list Where) (o : ObjectModel) : bool :=
  negb (nonEmpty afterConditions)
  || existsb (fun c => matches c o) afterConditions.

(** The [where] object of the listing query. *)
Definition listingWhere (dirname : string)
    (keywordConditions afterConditions : list Where) : Where :=
  OpAnd
    ([ if nonEmpty keywordConditions
       then DirnameLike (Utils.generateLikeSyntax dirname (Some EmptyString))
       else DirnameEq dirname ]
     ++ (if nonEmpty afterConditions then [OpOr afterConditions] else [])
     ++ (if nonEmpty keywordConditions then [OpAnd keywordConditions] else [])).

Definition listingOrder : list Column := [ColType; ColBasename; ColId].

Definition getObjects (dirname : string) (keyword : option string)
    (after : option Z) (limit : nat) : M Page :=
  let keywordConditions := keywordConditionsOf keyword in
  afterConditions <- afterConditionsOf after ;;
  objects <- findAll {| where_ := listingWhere dirname keywordConditions
                                    afterConditions;
                        order := listingOrder;
                        limit := Some (limit + 1) |} ;;
  ret {| hasNextPage := Nat.ltb limit (List.length objects);
         items := firstn limit objects |}.

(** The parent check shared by [createFolder] and [createFile]. *)
Definition requireParent (objectPath : string) : M unit :=
  if JsString.truthy (Path.dirname objectPath) then
    parent <- findOne (OpAnd [TypeEq FOLDER;
                              PathEq (Path.dirname objectPath ++ "/")]) ;;
    match parent with
    | None => throw (NotFoundError (MsgNotFoundParent (Path.dirname objectPath)))
    | Some _ => ret tt
    end
  else ret tt.

(** The [try { await object.save() } catch (error) {...}] block shared by
    [createFolder] and [createFile]. *)
Definition saveOrConflict (draft : ObjectDraft) : M ObjectModel :=
  tryCatch (save draft)
    (fun error =>
       match error with
       | UniqueConstraintError errors =>
           match errors with
           | field :: _ =>
               if String.eqb field "path"
               then throw (ConflictError error SHOW_OBJECT_DUPLICATED_ALERT
                             (draftPath draft))
               else throw error
           | [] => throw error
           end
       | _ => throw error
       end).

(** The candidate path of [createFolder]:
    [(dirname || null) ? `${dirname}/${basename}/` : `${basename}/`]. *)
Definition folderPath (dirname basename : string) : string :=
  if JsString.truthy dirname
  then dirname ++ "/" ++ basename ++ "/"
  else basename ++ "/".

(** The candidate path of [createFile]:
    [(dirname || null) ? `${dirname}/${basename}` : `${basename}`]. *)
Definition filePath (dirname basename : string) : string :=
  if JsString.truthy dirname
  then dirname ++ "/" ++ basename
  else basename.

Definition createFolder (dirname basename : string) : M ObjectModel :=
  let object :=
    {| draftType := FOLDER;
       draftPath := folderPath dirname basename;
       draftStorageClass := None |} in
  requireParent (draftPath object) ;;
  saved <- saveOrConflict object ;;
  s3_putObject (path saved) ;;
  ret saved.

(** [object.size = ...; object.lastModified = ...] after the upload. *)
Definition withHeaders (o : ObjectModel) (objectHeaders : Headers)
  : ObjectModel :=
  {| id := id o;
     type := type o;
     path := path o;
     storageClass := storageClass o;
     size := Some (ContentLength objectHeaders);
     lastModified := Some (LastModified objectHeaders) |}.

(** [mimeTypes.lookup(basename) || 'application/octet-stream']. *)
Definition contentTypeOf (basename : string) : string :=
  match mimeLookup env basename with
  | Some contentType => contentType
  | None => "application/octet-stream"
  end.

Definition createFile (localPath dirname : string) : M ObjectModel :=
  let basename := NodePath.basename localPath in
  let object :=
    {| draftType := FILE;
       draftPath := filePath dirname basename;
       draftStorageClass := Some STANDARD |} in
  requireParent (draftPath object) ;;
  saved <- saveOrConflict object ;;
  tryCatch
    (s3_upload (path saved) (contentTypeOf basename) ;;
     objectHeaders <- s3_headObject (path saved) ;;
     let confirmed := withHeaders saved objectHeaders in
     update confirmed ;;
     ret confirmed)
    (fun error => destroyInstance saved ;; throw error).

(** [existsIds.includes(id)]. *)
Definition includes (existsIds : list Z) (v : Z) : bool :=
  existsb (Z.eqb v) existsIds.

Definition byIds (ids : list Z) : Query :=
  {| where_ := IdIn ids; order := []; limit := None |}.

(** The rows of the given type below a folder path. *)
Definition deepQuery (t : OBJECT_TYPE) (folderPath : string) : Query :=
  {| where_ := OpAnd [TypeEq t;
                      PathLike (Utils.generateLikeSyntax folderPath
                                  (Some EmptyString))];
     order := [];
     limit := None |}.

(** First stage of [downloadObjects]: the [files] array after the requested
    rows were visited one at a time. *)
Fixpoint collectFiles (objects files : list ObjectModel)
  : M (list ObjectModel) :=
  match objects with
  | [] => ret files
  | object :: rest =>
      match type object with
      | FILE => collectFiles rest (files ++ [object])
      | FOLDER =>
          deepFiles <- findAll (deepQuery FILE (path object)) ;;
          collectFiles rest (files ++ deepFiles)
      end
  end.

(** Where [downloadObjects] writes a file of the index. *)
Definition downloadTarget (localPath dirname filePath : string) : string :=
  NodePath.join
    (localPath
     :: JsString.split NodePath.sep
          (JsString.replace dirname EmptyString filePath)).

(** Second stage of [downloadObjects], for one file.  The progress
    notifications sent while the body streams are not part of the model. *)
Definition transfer (localPath dirname : string) (file : ObjectModel)
  : M unit :=
  result <- s3_getObject (path file) ;;
  fs_createWriteStream (downloadTarget localPath dirname (path file)) ;;
  match streamError result with
  | Some error => throw error
  | None => ret tt
  end.

Definition downloadObjects (localPath dirname : string) (ids : list Z)
  : M unit :=
  objects <- findAll (byIds ids) ;;
  (if negb (Nat.eqb (List.length objects) (List.length ids)) then
     let existsIds := map id objects in
     forEach ids
       (fun v =>
          if negb (includes existsIds v)
          then throw (NotFoundError (MsgNotFoundObjectQuoted v))
          else ret tt) ;;
     throw (NotFoundError (MsgNotFoundAll ids))
   else ret tt) ;;
  files <- collectFiles objects [] ;;
  promiseAllLimit1 files (transfer localPath dirname).

(** First stage of [deleteObjects]: the [files] and [folders] arrays after
    the requested rows were visited one at a time. *)
Fixpoint collectAll (objects files folders : list ObjectModel)
  : M (list ObjectModel * list ObjectModel) :=
  match objects with
  | [] => ret (files, folders)
  | object :: rest =>
      match type object with
      | FILE => collectAll rest (files ++ [object]) folders
      | FOLDER =>
          deep <- promiseAll2 (findAll (deepQuery FILE (path object)))
                              (findAll (deepQuery FOLDER (path object))) ;;
          collectAll rest (files ++ fst deep) (folders ++ snd deep)
      end
  end.

(** [(a, b) => b.split('/').length - a.split('/').length] is not positive. *)
Definition deeperFirst (a b : string) : bool :=
  Nat.leb (List.length (JsString.split "/"%char b))
          (List.length (JsString.split "/"%char a)).

Definition deleteObjects (ids : list Z) : M unit :=
  objects <- findAll (byIds ids) ;;
  (if negb (Nat.eqb (List.length objects) (List.length ids)) then
     let existsIds := map id objects in
     forEach ids
       (fun v =>
          if negb (includes existsIds v)
          then throw (NotFoundError (MsgNotFoundQuoted v))
          else ret tt)
   else ret tt) ;;
  collected <- collectAll objects [] [] ;;
  let files := fst collected in
  let folders := snd collected in
  (if nonEmpty files then
     promiseAll2 (s3_deleteObjects (map path files))
                 (destroy (IdIn (map id files))) ;;
     ret tt
   else ret tt) ;;
  (if nonEmpty folders then
     promiseAll2
       (s3_deleteObjects (stableSort deeperFirst (map path folders)))
       (destroy (IdIn (map id folders))) ;;
     ret tt
   else ret tt) ;;
  ret tt.

(** The two creation requests and the two bulk requests of the API, to
    state what they have in common. *)
Inductive Creation :=
| CreateFolder (dirname basename : string)
| CreateFile (localPath dirname : string).

Definition candidatePath (request : Creation) : string :=
  match request with
  | CreateFolder dirname basename => folderPath dirname basename
  | CreateFile localPath dirname =>
      filePath dirname (NodePath.basename localPath)
  end.

Definition create (request : Creation) : M ObjectModel :=
  match request with
  | CreateFolder dirname basename => createFolder dirname basename
  | CreateFile localPath dirname => createFile localPath dirname
  end.

Inductive Bulk :=
| BulkDelete (ids : list Z)
| BulkDownload (localPath dirname : string) (ids : list Z).

Definition requestedIds (request : Bulk) : list Z :=
  match request with
  | BulkDelete ids => ids
  | BulkDownload _ _ ids => ids
  end.

Definition bulk (request : Bulk) : M unit :=
  match request with
  | BulkDelete ids => deleteObjects ids
  | BulkDownload localPath dirname ids => downloadObjects localPath dirname ids
  end.

(** The message naming a missing id, per handler. *)
Definition missingMessage (request : Bulk) (missing : Z) : Message :=
  match request with
  | BulkDelete _ => MsgNotFoundQuoted missing
  | BulkDownload _ _ _ => MsgNotFoundObjectQuoted missing
  end.

End Handlers.

(** ** Invariants of the index (section 3 of the spec) *)

(** Whether the table has a FOLDER row with the given path. *)
Definition hasFolder (p : string) (rows : list ObjectModel) : bool :=
  existsb
    (fun o => OBJECT_TYPE_eqb (type o) FOLDER && String.eqb (path o) p)
    rows.

(** Whether the parent check of a creation passes for a candidate path: the
    path is at the root, or its parent folder has a row. *)
Definition parentFound (p : string) (rows : list ObjectModel) : bool :=
  negb (JsString.truthy (Path.dirname p))
  || hasFolder (Path.dirname p ++ "/") rows.

(** Whether a requested id is the id of a row. *)
Definition resolves (rows : list ObjectModel) (v : Z) : bool :=
  existsb (fun o => Z.eqb (id o) v) rows.

Definition allResolve (rows : list ObjectModel) (ids : list Z) : bool :=
  forallb (resolves rows) ids.

(** The rows of type [t] whose path begins with [folderPath], as LIKE
    compares. *)
Definition below (t : OBJECT_TYPE) (folderPath : string)
    (rows : list ObjectModel) : list ObjectModel :=
  filter
    (fun o =>
       OBJECT_TYPE_eqb (type o) t && Utils.likePrefix folderPath (path o))
    rows.

(** What visiting one requested row adds to the [files] and to the [folders]
    array of [deleteObjects]. *)
Definition expandFiles (rows : list ObjectModel) (o : ObjectModel)
  : list ObjectModel :=
  match type o with
  | FILE => [o]
  | FOLDER => below FILE (path o) rows
  end.

Definition expandFolders (rows : list ObjectModel) (o : ObjectModel)
  : list ObjectModel :=
  match type o with
  | FILE => []
  | FOLDER => below FOLDER (path o) rows
  end.

(** The world after a batch was deleted remotely and destroyed locally,
    when there is a batch. *)
Definition afterBatch (batch : list ObjectModel) (paths : list string)
    (w : World) : World :=
  if nonEmpty batch then
    {| table :=
         filter (fun row => negb (existsb (Z.eqb (id row)) (map id batch)))
                (table w);
       nextId := nextId w;
       remoteCalls := remoteCalls w ++ [DeleteObjects paths];
       localWrites := localWrites w |}
  else w.

(** A row is collected by a bulk deletion when it is a requested file, or
    when its path begins, as LIKE compares, with the path of a requested
    folder. *)
Definition collected (rows : list ObjectModel) (ids : list Z)
    (o : ObjectModel) : Prop :=
  In o rows
  /\ exists requested,
       In requested rows
       /\ In (id requested) ids
       /\ ((type requested = FILE /\ o = requested)
           \/ (type requested = FOLDER
               /\ Utils.likePrefix (path requested) (path o) = true)).


(** The primary key: no two rows share an id. *)
Fixpoint distinct (values : list Z) : bool :=
  match values with
  | [] => true
  | v :: rest => negb (existsb (Z.eqb v) rest) && distinct rest
  end.

Definition primaryKey (rows : list ObjectModel) : bool :=
  distinct (map id rows).

(** Ids are handed out by the autoincrement counter. *)
Definition idsBelow (next : Z) (rows : list ObjectModel) : bool :=
  forallb (fun o => Z.ltb (id o) next) rows.

(** "Every non-root object's [dirname/] must correspond to an existing
    FOLDER record's path, or the object is root-level." *)
Definition parentsExist (rows : list ObjectModel) : bool :=
  forallb (fun o => parentFound (path o) rows) rows.

(** The three invariants together, for a world. *)
Definition indexInvariant (w : World) : bool :=
  idsBelow (nextId w) (table w)
  && primaryKey (table w)
  && parentsExist (table w).

(** The first failure, if any, of the steps [createFile] runs once the
    provisional row [saved] is inserted: upload, then [headObject], then the
    update of size and lastModified. *)
Definition confirmationFailure (env : Env) (saved : ObjectModel)
  : option Error :=
  match uploadAnswer env (path saved) with
  | Some e => Some e
  | None =>
      match headObjectAnswer env (path saved) with
      | inl e => Some e
      | inr objectHeaders => updateAnswer env (withHeaders saved objectHeaders)
      end
  end.

(** ** A sample index, used to run the handlers *)

Module Sample.

(** The two possible conventions for the values of [OBJECT_TYPE]. *)
Definition folderFirst (t : OBJECT_TYPE) : Z :=
  match t with FOLDER => 1 | FILE => 2 end.

Definition fileFirst (t : OBJECT_TYPE) : Z :=
  match t with FOLDER => 2 | FILE => 1 end.

(** A remote bucket and a database that never fail. *)
Definition reliable : Env :=
  {| putObjectAnswer := fun _ => None;
     uploadAnswer := fun _ => None;
     headObjectAnswer := fun _ =>
       inr {| ContentType := None; ContentLength := 10; LastModified := 99 |};
     getObjectAnswer := fun _ =>
       inr {| downloadLength := 10; streamError := None |};
     deleteObjectsAnswer := fun _ => None;
     updateAnswer := fun _ => None;
     mimeLookup := fun _ => None |}.

(** A bucket whose uploads are refused. *)
Definition uploadRefused : Env :=
  {| putObjectAnswer := fun _ => None;
     uploadAnswer := fun _ => Some (RemoteError "AccessDenied");
     headObjectAnswer := headObjectAnswer reliable;
     getObjectAnswer := getObjectAnswer reliable;
     deleteObjectsAnswer := fun _ => None;
     updateAnswer := fun _ => None;
     mimeLookup := fun _ => None |}.

Definition row (i : Z) (t : OBJECT_TYPE) (p : string) : ObjectModel :=
  {| id := i; type := t; path := p;
     storageClass := match t with FILE => Some STANDARD | FOLDER => None end;
     size := match t with FILE => Some 10%Z | FOLDER => None end;
     lastModified := match t with FILE => Some 99%Z | FOLDER => None end |}.

Definition worldOf (rows : list ObjectModel) (next : Z) : World :=
  {| table := rows; nextId := next; remoteCalls := []; localWrites := [] |}.

Definition empty : World := worldOf [] 1.

(** [a/], [a/b/], [a/b/x.txt], [y.txt], [z/]. *)
Definition tree : World :=
  worldOf [ row 1 FOLDER "a/"; row 2 FOLDER "a/b/"; row 3 FILE "a/b/x.txt";
            row 4 FILE "y.txt"; row 5 FOLDER "z/" ] 6.

(** Two folders and two files at the root, whose names interleave. *)
Definition interleaved : World :=
  worldOf [ row 1 FOLDER "a/"; row 2 FOLDER "z/";
            row 3 FILE "b.txt"; row 4 FILE "y.txt" ] 5.

(** The ids of a page, or [None] when the listing threw. *)
Definition pageIds (result : Outcome Page * World) : option (list Z * bool) :=
  match fst result with
  | Returned page => Some (map id (items page), hasNextPage page)
  | Thrown _ => None
  end.

End Sample.

(** ** What the spec says of the listing cursor *)

Module Reference.

(** The "resume after" predicate in the words of the spec:
    [(type > cursor.type) OR (type = cursor.type AND basename >
    cursor.basename) OR (type = cursor.type AND basename = cursor.basename AND
    id > cursor.id)]. *)
Definition resumeAfter (typeValue : OBJECT_TYPE -> Z)
    (cursor o : ObjectModel) : bool :=
  Z.ltb (typeValue (type cursor)) (typeValue (type o))
  || (Z.eqb (typeValue (type o)) (typeValue (type cursor))
      && String.ltb (basename cursor) (basename o))
  || (Z.eqb (typeValue (type o)) (typeValue (type cursor))
      && String.eqb (basename o) (basename cursor)
      && Z.ltb (id cursor) (id o)).

(** Stripping a prefix, in the words of the spec. *)
Definition stripPrefix (prefix s : string) : string :=
  JsString.drop (String.length prefix) s.

End Reference.

(** Whether the transfer of a file succeeds: the object is served and its
    body streams to the end. *)
Definition transferred (env : Env) (file : ObjectModel) : bool :=
  match getObjectAnswer env (path file) with
  | inr result =>
      match streamError result with
      | None => true
      | Some _ => false
      end
  | inl _ => false
  end.

(** ** [getObject]: one row with its live metadata *)

(** A call to [s3.getSignedUrl(path, {expiresIn})]; [expiresIn] is absent
    when the adapter's default is left to apply. *)
Record SignedUrlRequest := {
  signedPath : string;
  expiresIn : option Z
}.

(** The object [getObject] resolves to: the row, the [url] key when one was
    set, and [objectHeaders]. *)
Record ObjectView := {
  viewObject : ObjectModel;
  viewUrl : option string;
  viewObjectHeaders : Headers
}.

(** [getObject] throws a [NotFoundError] built without a message, which the
    message templates of the other handlers do not cover. *)
Inductive ViewOutcome :=
| ViewReturned (result : ObjectView)
| ViewNotFound                        (* new NotFoundError() *)
| ViewThrown (e : Error).

(** [headers.ContentType?.startsWith(prefix)]: an absent content type is
    falsy. *)
Definition contentTypeStartsWith (headers : Headers) (prefix : string) : bool :=
  match ContentType headers with
  | Some contentType => String.prefix prefix contentType
  | None => false
  end.

(** The signing request [getObject] makes for the headers of an object, if
    any: one hour for an image, the adapter's default for a video. *)
Definition signingFor (objectPath : string) (headers : Headers)
  : option SignedUrlRequest :=
  if contentTypeStartsWith headers "image/" then
    Some {| signedPath := objectPath; expiresIn := Some (60 * 60)%Z |}
  else if contentTypeStartsWith headers "video/" then
    Some {| signedPath := objectPath; expiresIn := None |}
  else None.

(** [getObject({id})].  [sign] is how the adapter answers
    [s3.getSignedUrl]; the requests made to it are returned beside the
    world. *)
Definition getObject (typeValue : OBJECT_TYPE -> Z) (env : Env)
    (sign : SignedUrlRequest -> Error + string) (requested : Z) (w : World)
  : ViewOutcome * World * list SignedUrlRequest :=
  match findOne typeValue (IdEq requested) w with
  | (Thrown e, w0) => (ViewThrown e, w0, [])
  | (Returned None, w0) => (ViewNotFound, w0, [])
  | (Returned (Some object), w0) =>
      match s3_headObject env (path object) w0 with
      | (Thrown e, w1) => (ViewThrown e, w1, [])
      | (Returned headers, w1) =>
          match signingFor (path object) headers with
          | Some request =>
              match sign request with
              | inl e => (ViewThrown e, w1, [request])
              | inr url =>
                  (ViewReturned {| viewObject := object;
                                   viewUrl := Some url;
                                   viewObjectHeaders := headers |},
                   w1, [request])
              end
          | None =>
              (ViewReturned {| viewObject := object;
                               viewUrl := None;
                               viewObjectHeaders := headers |},
               w1, [])
          end
      end
  end.

(** ** [settings-handler]: the S3 settings *)

Module SettingsHandler.

(** The row of the settings table.  Modelled from the spec: the columns of
    [SettingsModel] ([models/data/settings-model.js] is not among the
    sources): "accessKeyId, secretAccessKey (encrypted at rest, omitted from
    updates if blank), region, bucket, endpoint".  The encryption is not
    modelled; a row that never received a secret has none. *)
Record Settings := {
  accessKeyId : string;
  secretAccessKey : option string;
  region : string;
  bucket : string;
  endpoint : string
}.

(** The values given to [SettingsModel.upsert]: the [secretAccessKey] key is
    present only when one was spread in. *)
Record UpsertValues := {
  givenAccessKeyId : string;
  givenSecretAccessKey : option string;
  givenRegion : string;
  givenBucket : string;
  givenEndpoint : string
}.

(** The settings table holds at most the row whose id is
    [MAIN_SETTINGS_ID]; [adapter] is what [s3.updateSettings] last
    received. *)
Record SettingsWorld := {
  mainSettings : option Settings;
  adapter : option Settings
}.

(** [SettingsModel.upsert(values)] on the row [MAIN_SETTINGS_ID]: the keys
    given are written; a key left out keeps the stored value, if there is a
    row. *)
Definition upsert (values : UpsertValues) (stored : option Settings)
  : Settings :=
  {| accessKeyId := givenAccessKeyId values;
     secretAccessKey :=
       match givenSecretAccessKey values with
       | Some secret => Some secret
       | None =>
           match stored with
           | Some row => secretAccessKey row
           | None => None
           end
       end;
     region := givenRegion values;
     bucket := givenBucket values;
     endpoint := givenEndpoint values |}.

(** The arguments of [updateS3Settings]; [secretAccessKey] may be
    [undefined]. *)
Record UpdateArguments := {
  argAccessKeyId : string;
  argSecretAccessKey : option string;
  argRegion : string;
  argBucket : string;
  argEndpoint : string
}.

(** [...(secretAccessKey ? {secretAccessKey} : {})]. *)
Definition spreadSecret (secret : option string) : option string :=
  match secret with
  | Some s => if JsString.truthy s then Some s else None
  | None => None
  end.

(** [getSettings()]. *)
Definition getSettings (w : SettingsWorld) : option Settings :=
  mainSettings w.

(** [updateS3Settings({accessKeyId, secretAccessKey, region, bucket,
    endpoint})]: upsert, read the row back, hand it to the adapter, return
    it. *)
Definition updateS3Settings (args : UpdateArguments) (w : SettingsWorld)
  : Settings * SettingsWorld :=
  let row :=
    upsert {| givenAccessKeyId := argAccessKeyId args;
              givenSecretAccessKey := spreadSecret (argSecretAccessKey args);
              givenRegion := argRegion args;
              givenBucket := argBucket args;
              givenEndpoint := argEndpoint args |}
           (mainSettings w) in
  (row, {| mainSettings := Some row; adapter := Some row |}).

End SettingsHandler.

(** ** The settings page of the renderer *)

Module SettingsPage.

Import SettingsHandler.

(** The values of the S3 settings form. *)
Record FormValues := {
  formAccessKeyId : string;
  formSecretAccessKey : string;
  formRegion : string;
  formBucket : string;
  formEndpoint : string
}.

(** [generateS3SettingsInitialValues(settings)]: each field is
    [settings?.field || ''], the secret is always empty. *)
Definition generateS3SettingsInitialValues (settings : option Settings)
  : FormValues :=
  {| formAccessKeyId :=
       match settings with Some s => accessKeyId s | None => EmptyString end;
     formSecretAccessKey := EmptyString;
     formRegion :=
       match settings with Some s => region s | None => EmptyString end;
     formBucket :=
       match settings with Some s => bucket s | None => EmptyString end;
     formEndpoint :=
       match settings with Some s => endpoint s | None => EmptyString end |}.

(** The argument of [api.updateS3Settings] built on submit:
    [{...values, secretAccessKey: values.secretAccessKey || undefined}]. *)
Definition submittedArguments (values : FormValues) : UpdateArguments :=
  {| argAccessKeyId := formAccessKeyId values;
     argSecretAccessKey :=
       if JsString.truthy (formSecretAccessKey values)
       then Some (formSecretAccessKey values)
       else None;
     argRegion := formRegion values;
     argBucket := formBucket values;
     argEndpoint := formEndpoint values |}.

(** The state of the component. *)
Record State := {
  requestPool : list string;    (* a Set of request ids *)
  settings : option Settings;
  isSubmitSuccess : bool;
  isSyncSuccess : bool
}.

(** What the handlers do besides changing the state, in order. *)
Inductive Effect :=
| PreventDefault
| AddBusyClass
| RemoveBusyClass
| SyncObjectsFromS3                          (* api.syncObjectsFromS3() *)
| UpdateS3Settings (args : UpdateArguments)  (* api.updateS3Settings(...) *)
| ShowErrorBox (error : Error).   (* dialog.showErrorBox('Error', message) *)

(** The page: the component's state, the renderer store's
    [STORE_KEYS.SETTINGS] entry, the form, and the effects so far. *)
Record Page := {
  state : State;
  storeSettings : option Settings;
  form : FormValues;
  effects : list Effect
}.

(** [new Set([...pool, requestId])]. *)
Definition addRequest (requestId : string) (pool : list string) : list string :=
  if existsb (String.eqb requestId) pool then pool else pool ++ [requestId].

(** [pool.delete(requestId)]. *)
Definition deleteRequest (requestId : string) (pool : list string)
  : list string :=
  filter (fun other => negb (String.eqb requestId other)) pool.

(** [isApiProcessing = requestPool.size > 0], which disables the buttons. *)
Definition isApiProcessing (s : State) : bool := nonEmpty (requestPool s).

Definition effect (e : Effect) (p : Page) : Page :=
  {| state := state p;
     storeSettings := storeSettings p;
     form := form p;
     effects := effects p ++ [e] |}.

Definition setState (change : State -> State) (p : Page) : Page :=
  {| state := change (state p);
     storeSettings := storeSettings p;
     form := form p;
     effects := effects p |}.

(** The [finally] block shared by the two handlers. *)
Definition release (requestId : string) (p : Page) : Page :=
  setState
    (fun s =>
       {| requestPool := deleteRequest requestId (requestPool s);
          settings := settings s;
          isSubmitSuccess := isSubmitSuccess s;
          isSyncSuccess := isSyncSuccess s |})
    (effect RemoveBusyClass p).

(** [onClickSyncButton(event)], for the request id drawn and the outcome of
    [api.syncObjectsFromS3()]. *)
Definition onClickSyncButton (requestId : string) (syncFailure : option Error)
    (p : Page) : Page :=
  let p := effect PreventDefault p in
  let p := effect AddBusyClass p in
  let p :=
    setState
      (fun s =>
         {| requestPool := addRequest requestId (requestPool s);
            settings := settings s;
            isSubmitSuccess := isSubmitSuccess s;
            isSyncSuccess := false |}) p in
  let p := effect SyncObjectsFromS3 p in
  let p :=
    match syncFailure with
    | None =>
        setState
          (fun s =>
             {| requestPool := requestPool s;
                settings := settings s;
                isSubmitSuccess := isSubmitSuccess s;
                isSyncSuccess := true |}) p
    | Some error => effect (ShowErrorBox error) p
    end in
  release requestId p.

(** [{...store.get(STORE_KEYS.SETTINGS), ...result}]: every key of the
    result overrides the stored one. *)
Definition mergeSettings (stored : option Settings) (result : Settings)
  : Settings := result.

(** [onSubmitUpdateS3SettingsForm(values, {resetForm})], for the request id
    drawn and the outcomes of the two API calls. *)
Definition onSubmitUpdateS3SettingsForm (requestId : string)
    (values : FormValues) (updateOutcome : Error + Settings)
    (syncFailure : option Error) (p : Page) : Page :=
  let p := effect AddBusyClass p in
  let p :=
    setState
      (fun s =>
         {| requestPool := addRequest requestId (requestPool s);
            settings := settings s;
            isSubmitSuccess := false;
            isSyncSuccess := isSyncSuccess s |}) p in
  let p := effect (UpdateS3Settings (submittedArguments values)) p in
  let p :=
    match updateOutcome with
    | inl error => effect (ShowErrorBox error) p
    | inr result =>
        let nextSettings := mergeSettings (storeSettings p) result in
        let p := effect SyncObjectsFromS3 p in
        match syncFailure with
        | Some error => effect (ShowErrorBox error) p
        | None =>
            let p :=
              {| state := state p;
                 storeSettings := Some nextSettings;
                 form := form p;
                 effects := effects p |} in
            let p :=
              setState
                (fun s =>
                   {| requestPool := requestPool s;
                      settings := Some nextSettings;
                      isSubmitSuccess := true;
                      isSyncSuccess := isSyncSuccess s |}) p in
            {| state := state p;
               storeSettings := storeSettings p;
               form := generateS3SettingsInitialValues (Some nextSettings);
               effects := effects p |}
        end
    end in
  release requestId p.

End SettingsPage.

(** ** More samples *)

Module Fixture.

(** A bucket that refuses folder markers. *)
Definition markerRefused : Env :=
  {| putObjectAnswer := fun _ => Some (RemoteError "AccessDenied");
     uploadAnswer := fun _ => None;
     headObjectAnswer := headObjectAnswer Sample.reliable;
     getObjectAnswer := getObjectAnswer Sample.reliable;
     deleteObjectsAnswer := fun _ => None;
     updateAnswer := fun _ => None;
     mimeLookup := fun _ => None |}.

(** A bucket that refuses deletions. *)
Definition deletionRefused : Env :=
  {| putObjectAnswer := fun _ => None;
     uploadAnswer := fun _ => None;
     headObjectAnswer := headObjectAnswer Sample.reliable;
     getObjectAnswer := getObjectAnswer Sample.reliable;
     deleteObjectsAnswer := fun _ => Some (RemoteError "SlowDown");
     updateAnswer := fun _ => None;
     mimeLookup := fun _ => None |}.

(** A bucket whose objects are JPEG images, and one whose objects cannot
    be read. *)
Definition pictures : Env :=
  {| putObjectAnswer := fun _ => None;
     uploadAnswer := fun _ => None;
     headObjectAnswer := fun _ =>
       inr {| ContentType := Some "image/jpeg"; ContentLength := 10;
              LastModified := 99 |};
     getObjectAnswer := getObjectAnswer Sample.reliable;
     deleteObjectsAnswer := fun _ => None;
     updateAnswer := fun _ => None;
     mimeLookup := fun _ => Some "image/jpeg" |}.

Definition unreadable : Env :=
  {| putObjectAnswer := fun _ => None;
     uploadAnswer := fun _ => None;
     headObjectAnswer := headObjectAnswer Sample.reliable;
     getObjectAnswer := fun _ => inl (RemoteError "NoSuchKey");
     deleteObjectsAnswer := fun _ => None;
     updateAnswer := fun _ => None;
     mimeLookup := fun _ => None |}.

(** A signer that always answers, with the path as the URL. *)
Definition signer (request : SignedUrlRequest) : Error + string :=
  inr ("https://bucket/" ++ signedPath request)%string.

Definition storedSettings : SettingsHandler.Settings :=
  {| SettingsHandler.accessKeyId := "AKIA";
     SettingsHandler.secretAccessKey := Some "s3cr3t";
     SettingsHandler.region := "eu-west-1";
     SettingsHandler.bucket := "files";
     SettingsHandler.endpoint := "https://s3.example" |}.

Definition configured : SettingsHandler.SettingsWorld :=
  {| SettingsHandler.mainSettings := Some storedSettings;
     SettingsHandler.adapter := Some storedSettings |}.

Definition idle : SettingsPage.Page :=
  {| SettingsPage.state :=
       {| SettingsPage.requestPool := [];
          SettingsPage.settings := Some storedSettings;
          SettingsPage.isSubmitSuccess := false;
          SettingsPage.isSyncSuccess := false |};
     SettingsPage.storeSettings := Some storedSettings;
     SettingsPage.form :=
       SettingsPage.generateS3SettingsInitialValues (Some storedSettings);
     SettingsPage.effects := [] |}.

End Fixture.

(** * Properties *)

(** ** Evaluation on small inputs *)

Example dirname_nested_file : Path.dirname "a/b/c.txt" = "a/b".
Proof. reflexivity. Qed.
Example dirname_nested_folder : Path.dirname "a/b/" = "a".
Proof. reflexivity. Qed.
Example dirname_root_file : Path.dirname "c.txt" = "".
Proof. reflexivity. Qed.
Example dirname_root_folder : Path.dirname "b/" = "".
Proof. reflexivity. Qed.
Example basename_nested_folder : Path.basename "a/b/" = "b".
Proof. reflexivity. Qed.
Example basename_nested_file : Path.basename "a/b/c.txt" = "c.txt".
Proof. reflexivity. Qed.
Example parseKeyword_mixed :
  Utils.parseKeyword "report -draft  2021" = (["report"; "2021"], ["draft"]).
Proof. reflexivity. Qed.
Example like_prefix_hit :
  Utils.like "a/b/c.txt" (Utils.generateLikeSyntax "a/b" (Some "")) = true.
Proof. reflexivity. Qed.
Example like_prefix_miss :
  Utils.like "x/a/b/c.txt" (Utils.generateLikeSyntax "a/b" (Some "")) = false.
Proof. reflexivity. Qed.
Example like_substring_hit :
  Utils.like "x/a/b/c.txt" (Utils.generateLikeSyntax "a/b" (Some "%")) = true.
Proof. reflexivity. Qed.
Example join_nested :
  NodePath.join ["/home/me/dl"; ""; "b"; "c.txt"] = "/home/me/dl/b/c.txt".
Proof. reflexivity. Qed.
Example basename_local : NodePath.basename "/tmp/up/c.txt" = "c.txt".
Proof. reflexivity. Qed.

(** ** Strings and LIKE patterns *)

Lemma replace_unfold pattern replacement s :
  JsString.replace pattern replacement s =
  if String.prefix pattern s
  then (replacement ++ JsString.drop (String.length pattern) s)%string
  else match s with
       | EmptyString => EmptyString
       | String c s' => String c (JsString.replace pattern replacement s')
       end.
Proof. destruct s; reflexivity. Qed.

Lemma likeChars_wildcard_last (subject : list ascii) :
  Utils.likeChars [Utils.Wildcard] subject = true.
Proof. induction subject as [|c subject IH]; [reflexivity | exact IH]. Qed.

Lemma likeChars_literal_prefix (value : string) :
  forall subject : string,
    Utils.likeChars
      (map Utils.Literal (list_ascii_of_string value) ++ [Utils.Wildcard])
      (list_ascii_of_string subject)
    = Utils.likePrefix value subject.
Proof.
  unfold Utils.likePrefix.
  induction value as [|c value IH]; intros subject.
  - simpl map. simpl app. rewrite likeChars_wildcard_last.
    destruct subject; reflexivity.
  - destruct subject as [|c' subject]; [reflexivity|].
    cbn [list_ascii_of_string map app Utils.likeChars Utils.foldString
         String.prefix].
    rewrite IH. unfold Utils.sameChar.
    destruct (ascii_dec (Utils.foldCase c) (Utils.foldCase c')) as [->|Hne].
    + now rewrite Ascii.eqb_refl.
    + apply Ascii.eqb_neq in Hne. now rewrite Hne.
Qed.

(** With the anchor as [start], the pattern selects exactly the subjects
    that begin with the fragment, up to the case of ASCII letters. *)
Lemma like_anchored (value subject : string) :
  Utils.like subject (Utils.generateLikeSyntax value (Some EmptyString))
  = Utils.likePrefix value subject.
Proof. apply likeChars_literal_prefix. Qed.


(** A subject that begins with the fragment byte for byte is selected. *)
Lemma likePrefix_of_prefix (value : string) :
  forall subject : string,
    String.prefix value subject = true ->
    Utils.likePrefix value subject = true.
Proof.
  unfold Utils.likePrefix.
  induction value as [|c value IH]; intros [|c' subject]; cbn;
    try reflexivity; try discriminate.
  destruct (ascii_dec c c') as [->|]; [|discriminate].
  intros Hrest. destruct (ascii_dec _ _) as [_|Hne]; [|contradiction].
  now apply IH.
Qed.

Lemma prefix_refl (s : string) : String.prefix s s = true.
Proof.
  induction s as [|c s IH]; [reflexivity|]. cbn.
  destruct (ascii_dec c c); [exact IH | contradiction].
Qed.

Lemma likePrefix_refl (s : string) : Utils.likePrefix s s = true.
Proof. apply likePrefix_of_prefix, prefix_refl. Qed.

(** The case of letters is ignored: [A/y.txt] is below [a/]. *)
Example likePrefix_ignores_case : Utils.likePrefix "a/" "A/y.txt" = true.
Proof. reflexivity. Qed.


(** ** Sorting *)

Section StableSort.

Context {A : Type}.
Variable leb : A -> A -> bool.
Hypothesis leb_total : forall a b, leb a b = true \/ leb b a = true.

Local Abbreviation precedes := (fun a b : A => leb a b = true).

Lemma insertSorted_permutation (x : A) (l : list A) :
  Permutation (insertSorted leb x l) (x :: l).
Proof.
  induction l as [|y l IH]; cbn; [reflexivity|].
  destruct (leb x y); [reflexivity|].
  rewrite IH. apply perm_swap.
Qed.

Lemma stableSort_permutation (l : list A) :
  Permutation (stableSort leb l) l.
Proof.
  induction l as [|x l IH]; cbn; [constructor|].
  rewrite insertSorted_permutation. now constructor.
Qed.

Lemma insertSorted_head (a x : A) (l : list A) :
  precedes a x -> HdRel precedes a l -> HdRel precedes a (insertSorted leb x l).
Proof.
  intros Hax Hhead. destruct l as [|y l]; cbn; [now constructor|].
  destruct (leb x y); constructor; [exact Hax|].
  now inversion Hhead.
Qed.

Lemma insertSorted_sorted (x : A) (l : list A) :
  Sorted precedes l -> Sorted precedes (insertSorted leb x l).
Proof.
  induction 1 as [|y l Hsorted IH Hhead]; cbn.
  - repeat constructor.
  - destruct (leb x y) eqn:Hxy.
    + constructor; [now constructor | now constructor].
    + constructor; [exact IH|].
      apply insertSorted_head; [|exact Hhead].
      destruct (leb_total x y) as [Hle|Hle]; [congruence | exact Hle].
Qed.

Lemma stableSort_sorted (l : list A) : Sorted precedes (stableSort leb l).
Proof.
  induction l as [|x l IH]; cbn; [constructor|].
  now apply insertSorted_sorted.
Qed.

End StableSort.



(** ** The listing window *)

Lemma afterConditionsOf_pure typeValue after w :
  snd (afterConditionsOf typeValue after w) = w.
Proof.
  unfold afterConditionsOf.
  destruct (truthyAfter after) as [a|]; [|reflexivity].
  unfold bind, findOne.
  destruct (find _ _); reflexivity.
Qed.



(** ** The scope of a listing *)

Lemma in_firstn {A} (n : nat) (l : list A) (x : A) :
  In x (firstn n l) -> In x l.
Proof.
  revert l. induction n as [|n IH]; intros [|y l]; cbn; try tauto.
  intros [->|Hin]; auto.
Qed.



Section Scope.

Variable typeValue : OBJECT_TYPE -> Z.

(** The listing filter is the conjunction of the directory scope, the cursor
    and the keyword conditions. *)
Lemma listingWhere_matches (requested : string)
    (keywordConditions afterConditions : list Where) (o : ObjectModel) :
  matches typeValue
    (listingWhere requested keywordConditions afterConditions) o
  = (if nonEmpty keywordConditions
     then Utils.likePrefix requested (dirname o)
     else String.eqb (dirname o) requested)
    && resumes typeValue afterConditions o
    && forallb (fun c => matches typeValue c o) keywordConditions.
Proof.
  unfold listingWhere, resumes. cbn [matches].
  rewrite !forallb_app. cbn [forallb].
  rewrite andb_true_r, <- andb_assoc. f_equal.
  - destruct (nonEmpty keywordConditions); cbn [matches];
      [apply like_anchored | reflexivity].
  - f_equal.
    + destruct afterConditions; cbn; [reflexivity | now rewrite andb_true_r].
    + destruct keywordConditions; cbn; [reflexivity | now rewrite andb_true_r].
Qed.



(** The rows of a page are rows of the table that pass the listing filter. *)
Lemma getObjects_items (requested : string) (keyword : option string)
    (after : option Z) (pageLimit : nat) (w w' : World) (page : Page) :
  getObjects typeValue requested keyword after pageLimit w = (Returned page, w') ->
  exists afterConditions,
    fst (afterConditionsOf typeValue after w) = Returned afterConditions
    /\ forall o, In o (items page) ->
         In o (table w)
         /\ matches typeValue
              (listingWhere requested (keywordConditionsOf keyword)
                 afterConditions) o = true.
Proof.
  unfold getObjects, bind. intros Hrun.
  pose proof (afterConditionsOf_pure typeValue after w) as Hpure.
  destruct (afterConditionsOf typeValue after w) as [[afterConditions|e] w1];
    [|discriminate].
  cbn [snd] in Hpure. subst w1.
  exists afterConditions. split; [reflexivity|].
  unfold findAll, select, ret in Hrun.
  cbn [limit order where_ applyLimit] in Hrun.
  injection Hrun as <- _. cbn [items].
  intros o Hin. apply in_firstn, in_firstn in Hin.
  apply (Permutation_in _ (stableSort_permutation _ _)) in Hin.
  now apply filter_In in Hin.
Qed.



End Scope.



(** ** The listing cursor *)

Section Cursor.

Variable typeValue : OBJECT_TYPE -> Z.

(** What the two conditions pushed for a cursor admit: the type must not be
    smaller, and then (basename, id) must be greater. *)
Lemma cursorConditions_admit (cursor o : ObjectModel) :
  existsb (fun c => matches typeValue c o) (cursorConditions cursor)
  = Z.leb (typeValue (type cursor)) (typeValue (type o))
    && (String.ltb (basename cursor) (basename o)
        || String.eqb (basename o) (basename cursor)
           && Z.ltb (id cursor) (id o)).
Proof.
  unfold cursorConditions. cbn [existsb matches forallb].
  rewrite !andb_true_r, orb_false_r.
  destruct (Z.leb _ _); reflexivity.
Qed.

(** Every row the code admits comes after the cursor in the order of the
    spec: no row is listed twice. *)
Lemma cursorConditions_sound (cursor o : ObjectModel) :
  existsb (fun c => matches typeValue c o) (cursorConditions cursor) = true ->
  Reference.resumeAfter typeValue cursor o = true.
Proof.
  rewrite cursorConditions_admit. unfold Reference.resumeAfter.
  rewrite andb_true_iff, orb_true_iff, andb_true_iff.
  intros [Htype Hrest]. apply Z.leb_le in Htype.
  destruct (Z.ltb_spec (typeValue (type cursor)) (typeValue (type o)))
    as [Hlt|Hge]; [reflexivity|].
  assert (Heq : Z.eqb (typeValue (type o)) (typeValue (type cursor)) = true)
    by (apply Z.eqb_eq; lia).
  rewrite Heq. cbn [orb andb].
  destruct Hrest as [Hname | [Hname Hid]].
  - now rewrite Hname.
  - rewrite Hname, Hid. apply orb_true_r.
Qed.

(** The converse fails for every row of a greater type whose basename is
    smaller than the cursor's: the spec resumes with it, the code skips it. *)
Lemma cursorConditions_incomplete (cursor o : ObjectModel) :
  (typeValue (type cursor) < typeValue (type o))%Z ->
  String.ltb (basename o) (basename cursor) = true ->
  Reference.resumeAfter typeValue cursor o = true
  /\ existsb (fun c => matches typeValue c o) (cursorConditions cursor) = false.
Proof.
  intros Htype Hname. split.
  - unfold Reference.resumeAfter.
    apply Z.ltb_lt in Htype. now rewrite Htype.
  - rewrite cursorConditions_admit.
    unfold String.ltb in *.
    rewrite String.compare_antisym.
    destruct (String.compare (basename o) (basename cursor)) eqn:Hcmp;
      try discriminate.
    cbn [CompOpp].
    assert (Hne : String.eqb (basename o) (basename cursor) = false).
    { apply String.eqb_neq. intros Heq. rewrite Heq in Hcmp.
      pose proof (String.compare_antisym (basename cursor) (basename cursor))
        as Hopp.
      rewrite Hcmp in Hopp. discriminate. }
    rewrite Hne. apply andb_false_r.
Qed.


Lemma compare_refl (s : string) : String.compare s s = Eq.
Proof.
  pose proof (String.compare_antisym s s) as Hopp.
  destruct (String.compare s s); [reflexivity | discriminate | discriminate].
Qed.

(** The condition of the spec is the listing order itself: it admits
    exactly the rows that come strictly after the cursor. *)
Lemma resumeAfter_order (cursor o : ObjectModel) :
  Reference.resumeAfter typeValue cursor o
  = match compareOrder typeValue listingOrder cursor o with
    | Lt => true
    | _ => false
    end.
Proof.
  unfold Reference.resumeAfter, listingOrder.
  cbn [compareOrder compareColumn].
  rewrite Z.ltb_compare, (Z.eqb_sym (typeValue (type o))), Z.eqb_compare.
  destruct (Z.compare (typeValue (type cursor)) (typeValue (type o)));
    [|reflexivity|reflexivity].
  cbn [orb andb]. unfold String.ltb.
  destruct (String.compare (basename cursor) (basename o)) eqn:Hname.
  - apply String.compare_eq_iff in Hname. rewrite Hname, String.eqb_refl.
    cbn [orb andb]. rewrite Z.ltb_compare.
    destruct (Z.compare (id cursor) (id o)); reflexivity.
  - reflexivity.
  - assert (Hne : String.eqb (basename o) (basename cursor) = false).
    { apply String.eqb_neq. intros Heq. rewrite Heq, compare_refl in Hname.
      discriminate. }
    now rewrite Hne.
Qed.

Lemma compareOrder_antisym (columns : list Column) (a b : ObjectModel) :
  compareOrder typeValue columns b a
  = CompOpp (compareOrder typeValue columns a b).
Proof.
  induction columns as [|c columns IH]; [reflexivity|].
  cbn [compareOrder].
  assert (Hcolumn : compareColumn typeValue c b a
                    = CompOpp (compareColumn typeValue c a b)).
  { destruct c; cbn [compareColumn].
    - apply Z.compare_antisym.
    - apply String.compare_antisym.
    - apply Z.compare_antisym. }
  rewrite Hcolumn.
  destruct (compareColumn typeValue c a b); cbn [CompOpp]; auto.
Qed.

Lemma orderLeb_total (columns : list Column) (a b : ObjectModel) :
  orderLeb typeValue columns a b = true
  \/ orderLeb typeValue columns b a = true.
Proof.
  unfold orderLeb. rewrite (compareOrder_antisym columns a b).
  destruct (compareOrder typeValue columns a b); cbn; auto.
Qed.

Lemma Sorted_firstn {A} (R : A -> A -> Prop) (n : nat) (l : list A) :
  Sorted R l -> Sorted R (firstn n l).
Proof.
  intros Hsorted. revert n.
  induction Hsorted as [|x l Hl IH Hhead]; intros [|n]; cbn;
    try constructor.
  - apply IH.
  - destruct Hhead; destruct n; cbn; constructor. assumption.
Qed.

(** X4. The rows of a page are in the order (type, basename, id). *)
Lemma getObjects_sorted (requested : string) (keyword : option string)
    (after : option Z) (pageLimit : nat) (w w' : World) (page : Page) :
  getObjects typeValue requested keyword after pageLimit w = (Returned page, w') ->
  Sorted (fun a b => orderLeb typeValue listingOrder a b = true) (items page).
Proof.
  unfold getObjects, bind. intros Hrun.
  destruct (afterConditionsOf typeValue after w) as [[afterConditions|e] w1];
    [|discriminate].
  unfold findAll, select, ret in Hrun.
  cbn [limit order where_ applyLimit] in Hrun.
  injection Hrun as <- _. cbn [items].
  apply Sorted_firstn, Sorted_firstn, stableSort_sorted.
  apply orderLeb_total.
Qed.

End Cursor.

(** C1. The code does not implement the resume-after condition of the spec.
    On the index [a/], [z/] (folders), [b.txt], [y.txt] (files), all at the
    root, listed two by two: when folders sort first, the page after the
    cursor [z/] is empty and claims to be the last, so neither file is ever
    listed although the spec's condition resumes with both; when files sort
    first, the page after the cursor [y.txt] holds [z/] alone and the folder
    [a/] is never listed. *)
Theorem listing_cursor_skips_rows :
  (Sample.pageIds
     (getObjects Sample.folderFirst "" None None 2 Sample.interleaved)
   = Some ([1; 2], true)%Z
   /\ Sample.pageIds
        (getObjects Sample.folderFirst "" None (Some 2%Z) 2 Sample.interleaved)
      = Some ([], false)
   /\ map id
        (filter
           (Reference.resumeAfter Sample.folderFirst
              (Sample.row 2 FOLDER "z/"))
           (table Sample.interleaved))
      = [3; 4]%Z)
  /\ (Sample.pageIds
        (getObjects Sample.fileFirst "" None None 2 Sample.interleaved)
      = Some ([3; 4], true)%Z
      /\ Sample.pageIds
           (getObjects Sample.fileFirst "" None (Some 4%Z) 2 Sample.interleaved)
         = Some ([2], false)%Z
      /\ map id
           (filter
              (Reference.resumeAfter Sample.fileFirst
                 (Sample.row 4 FILE "y.txt"))
              (table Sample.interleaved))
         = [1; 2]%Z).
Proof. vm_compute. repeat split. Qed.

(** ** Creation: parent check and unique paths *)

Section Creation.

Variable typeValue : OBJECT_TYPE -> Z.
Variable env : Env.

Lemma find_none_existsb {A} (f : A -> bool) (l : list A) :
  find f l = None <-> existsb f l = false.
Proof.
  induction l as [|x l IH]; cbn; [tauto|].
  destruct (f x); cbn; [split; discriminate | exact IH].
Qed.

Lemma existsb_same {A} (f g : A -> bool) (l : list A) :
  (forall x, f x = g x) -> existsb f l = existsb g l.
Proof.
  intros Hsame. induction l as [|x l IH]; cbn; [reflexivity|].
  now rewrite Hsame, IH.
Qed.

Lemma parent_lookup (p : string) (rows : list ObjectModel) :
  find (matches typeValue (OpAnd [TypeEq FOLDER; PathEq p])) rows = None
  <-> hasFolder p rows = false.
Proof.
  rewrite find_none_existsb. unfold hasFolder.
  assert (Hsame : forall o,
             matches typeValue (OpAnd [TypeEq FOLDER; PathEq p]) o
             = OBJECT_TYPE_eqb (type o) FOLDER && String.eqb (path o) p).
  { intros o. cbn. now rewrite andb_true_r. }
  now rewrite (existsb_same _ _ rows Hsame).
Qed.

(** The parent check reads the index and nothing else. *)
Lemma requireParent_run (p : string) (w : World) :
  requireParent typeValue p w
  = (if parentFound p (table w)
     then Returned tt
     else Thrown (NotFoundError (MsgNotFoundParent (Path.dirname p))),
     w).
Proof.
  unfold requireParent, parentFound.
  destruct (JsString.truthy (Path.dirname p)); cbn [negb orb]; [|reflexivity].
  unfold bind, findOne.
  destruct (find _ (table w)) eqn:Hfind.
  - destruct (hasFolder _ (table w)) eqn:Hfolder; [reflexivity|].
    apply parent_lookup in Hfolder. congruence.
  - apply parent_lookup in Hfind. now rewrite Hfind.
Qed.

(** The insert either appends the new row, or reports the taken path and
    leaves the world as it was. *)
Lemma saveOrConflict_run (draft : ObjectDraft) (w : World) :
  saveOrConflict draft w
  = if pathTaken (draftPath draft) (table w)
    then (Thrown (ConflictError (UniqueConstraintError ["path"])
                    SHOW_OBJECT_DUPLICATED_ALERT (draftPath draft)), w)
    else (Returned (newRow (nextId w) draft),
          {| table := table w ++ [newRow (nextId w) draft];
             nextId := nextId w + 1;
             remoteCalls := remoteCalls w;
             localWrites := localWrites w |}).
Proof.
  unfold saveOrConflict, tryCatch, save.
  destruct (pathTaken _ _); reflexivity.
Qed.

(** C4. When the candidate path has a non-empty parent dirname and the index
    holds no FOLDER row whose path is that dirname followed by a slash,
    [createFolder] and [createFile] fail with a [NotFoundError] naming the
    parent, and the world is the one they started from: no row inserted, no
    remote call. *)
Theorem create_requires_parent (request : Creation) (w : World) :
  JsString.truthy (Path.dirname (candidatePath request)) = true ->
  hasFolder (Path.dirname (candidatePath request) ++ "/") (table w) = false ->
  create typeValue env request w
  = (Thrown (NotFoundError
               (MsgNotFoundParent (Path.dirname (candidatePath request)))),
     w).
Proof.
  intros Hdirname Hparent.
  destruct request as [dirname basename | localPath dirname];
    cbn [create candidatePath] in *.
  - unfold createFolder, bind. cbn [draftPath]. rewrite requireParent_run.
    unfold parentFound. now rewrite Hdirname, Hparent.
  - unfold createFile, bind. cbn [draftPath]. rewrite requireParent_run.
    unfold parentFound. now rewrite Hdirname, Hparent.
Qed.

Lemma parentsExist_row (rows : list ObjectModel) (p : string) :
  parentsExist rows = true ->
  pathTaken p rows = true ->
  parentFound p rows = true.
Proof.
  unfold parentsExist, pathTaken. intros Hall Htaken.
  apply existsb_exists in Htaken as [o [Hin Hpath]].
  apply String.eqb_eq in Hpath.
  rewrite forallb_forall in Hall. specialize (Hall o Hin).
  now rewrite Hpath in Hall.
Qed.

(** A creation whose parent check passes and whose candidate path is taken
    is a conflict, and changes nothing. *)
Lemma create_conflict_checked (request : Creation) (w : World) :
  parentFound (candidatePath request) (table w) = true ->
  pathTaken (candidatePath request) (table w) = true ->
  create typeValue env request w
  = (Thrown (ConflictError (UniqueConstraintError ["path"])
               SHOW_OBJECT_DUPLICATED_ALERT (candidatePath request)),
     w).
Proof.
  intros Hparent Htaken.
  destruct request as [dirname basename | localPath dirname];
    cbn [create candidatePath] in *.
  - unfold createFolder, bind. cbn [draftPath].
    rewrite requireParent_run, Hparent, saveOrConflict_run.
    cbn [draftPath]. now rewrite Htaken.
  - unfold createFile, bind. cbn [draftPath].
    rewrite requireParent_run, Hparent, saveOrConflict_run.
    cbn [draftPath]. now rewrite Htaken.
Qed.

(** C2. On an index that satisfies the hierarchy invariant, a [createFolder]
    or [createFile] whose candidate path is the path of an existing row fails
    with a [ConflictError] carrying [SHOW_OBJECT_DUPLICATED_ALERT] and that
    path, and the world is unchanged: the index keeps its rows and the remote
    adapter receives no call. *)
Theorem create_conflict (request : Creation) (w : World) :
  parentsExist (table w) = true ->
  pathTaken (candidatePath request) (table w) = true ->
  create typeValue env request w
  = (Thrown (ConflictError (UniqueConstraintError ["path"])
               SHOW_OBJECT_DUPLICATED_ALERT (candidatePath request)),
     w).
Proof.
  intros Hinvariant Htaken.
  apply create_conflict_checked; [|exact Htaken].
  now apply parentsExist_row.
Qed.

End Creation.

Lemma create_requires_parent_witness :
  create Sample.folderFirst Sample.reliable
    (CreateFile "/tmp/x.txt" "nope") Sample.tree
  = (Thrown (NotFoundError (MsgNotFoundParent "nope")), Sample.tree).
Proof.
  exact (create_requires_parent Sample.folderFirst Sample.reliable
           (CreateFile "/tmp/x.txt" "nope") Sample.tree eq_refl eq_refl).
Defined.

Lemma create_conflict_witness :
  create Sample.folderFirst Sample.reliable
    (CreateFolder "a" "b") Sample.tree
  = (Thrown (ConflictError (UniqueConstraintError ["path"])
               SHOW_OBJECT_DUPLICATED_ALERT "a/b/"),
     Sample.tree).
Proof.
  exact (create_conflict Sample.folderFirst Sample.reliable
           (CreateFolder "a" "b") Sample.tree eq_refl eq_refl).
Defined.

(** ** The parent of a candidate path *)

Lemma split_nonempty (sep : ascii) (s : string) : JsString.split sep s <> [].
Proof.
  destruct s as [|c s]; cbn; [discriminate|].
  destruct (Ascii.eqb c sep); [discriminate|].
  destruct (JsString.split sep s); discriminate.
Qed.

Lemma split_app_sep (sep : ascii) (s1 s2 : string) :
  JsString.split sep (s1 ++ String sep s2)
  = JsString.split sep s1 ++ JsString.split sep s2.
Proof.
  induction s1 as [|c s1 IH]; cbn.
  - now rewrite Ascii.eqb_refl.
  - destruct (Ascii.eqb c sep); [now rewrite IH|].
    rewrite IH.
    pose proof (split_nonempty sep s1) as Hne.
    destruct (JsString.split sep s1); [contradiction | reflexivity].
Qed.

Lemma split_no_sep (sep : ascii) (s : string) :
  JsString.count sep s = 0 -> JsString.split sep s = [s].
Proof.
  induction s as [|c s IH]; cbn; [reflexivity|].
  destruct (Ascii.eqb c sep); [discriminate|].
  intros Hcount. now rewrite IH.
Qed.

Lemma concat_cons (sep piece next : string) (pieces : list string) :
  String.concat sep (piece :: next :: pieces)
  = (piece ++ sep ++ String.concat sep (next :: pieces))%string.
Proof. reflexivity. Qed.

Lemma join_split (s : string) :
  JsString.join "/" (JsString.split "/"%char s) = s.
Proof.
  unfold JsString.join.
  induction s as [|c s IH]; [reflexivity|].
  cbn [JsString.split].
  pose proof (split_nonempty "/"%char s) as Hne.
  destruct (JsString.split "/"%char s) as [|piece pieces]; [contradiction|].
  destruct (Ascii.eqb_spec c "/"%char) as [->|_].
  - rewrite concat_cons, IH. reflexivity.
  - destruct pieces as [|next pieces].
    + cbn in *. now rewrite IH.
    + rewrite concat_cons. rewrite concat_cons in IH.
      cbn [String.append] in *. now rewrite IH.
Qed.

Lemma list_ascii_of_string_app (s1 s2 : string) :
  list_ascii_of_string (s1 ++ s2)
  = list_ascii_of_string s1 ++ list_ascii_of_string s2.
Proof. induction s1 as [|c s1 IH]; cbn; [reflexivity | now rewrite IH]. Qed.

Lemma append_assoc (s1 s2 s3 : string) :
  ((s1 ++ s2) ++ s3 = s1 ++ (s2 ++ s3))%string.
Proof. induction s1 as [|c s1 IH]; cbn; [reflexivity | now rewrite IH]. Qed.

Lemma stripTrailingSlash_slash (s : string) :
  Path.stripTrailingSlash (s ++ "/") = s.
Proof.
  unfold Path.stripTrailingSlash.
  rewrite list_ascii_of_string_app, rev_app_distr. cbn.
  now rewrite rev_involutive, string_of_list_ascii_of_string.
Qed.

Lemma count_zero_in (sep : ascii) (s : string) (c : ascii) :
  JsString.count sep s = 0 ->
  In c (list_ascii_of_string s) -> Ascii.eqb c sep = false.
Proof.
  induction s as [|c' s IH]; cbn; [tauto|].
  destruct (Ascii.eqb c' sep) eqn:Hc'; [discriminate|].
  intros Hcount [<-|Hin]; auto.
Qed.

Lemma stripTrailingSlash_name (s name : string) :
  name <> EmptyString ->
  JsString.count "/"%char name = 0 ->
  Path.stripTrailingSlash (s ++ name) = (s ++ name)%string.
Proof.
  intros Hname Hplain. unfold Path.stripTrailingSlash.
  rewrite list_ascii_of_string_app, rev_app_distr.
  destruct (rev (list_ascii_of_string name)) as [|c before] eqn:Hrev.
  - exfalso. apply Hname.
    apply (f_equal (@rev ascii)) in Hrev. rewrite rev_involutive in Hrev.
    cbn in Hrev. destruct name; [reflexivity | discriminate].
  - cbn [app].
    assert (Hin : In c (list_ascii_of_string name)).
    { apply in_rev. rewrite Hrev. now left. }
    now rewrite (count_zero_in _ _ _ Hplain Hin).
Qed.

(** For a name without slash, the parent derived from the candidate path of
    [createFolder] is the [dirname] argument. *)
Lemma dirname_folderPath (dirname basename : string) :
  JsString.count "/"%char basename = 0 ->
  Path.dirname (folderPath dirname basename) = dirname.
Proof.
  intros Hplain. unfold folderPath, Path.dirname, JsString.truthy.
  destruct (String.eqb_spec dirname EmptyString) as [->|Hne]; cbn [negb].
  - rewrite stripTrailingSlash_slash, (split_no_sep _ _ Hplain). reflexivity.
  - replace (dirname ++ "/" ++ basename ++ "/")%string
      with ((dirname ++ String "/" basename) ++ "/")%string
      by (now rewrite append_assoc).
    rewrite stripTrailingSlash_slash, split_app_sep, (split_no_sep _ _ Hplain).
    rewrite removelast_last. apply join_split.
Qed.

(** The same for [createFile], whose name must not be empty. *)
Lemma dirname_filePath (dirname basename : string) :
  basename <> EmptyString ->
  JsString.count "/"%char basename = 0 ->
  Path.dirname (filePath dirname basename) = dirname.
Proof.
  intros Hname Hplain. unfold filePath, Path.dirname, JsString.truthy.
  destruct (String.eqb_spec dirname EmptyString) as [->|Hne]; cbn [negb].
  - pose proof (stripTrailingSlash_name EmptyString _ Hname Hplain) as Hstrip.
    cbn [String.append] in Hstrip.
    rewrite Hstrip, (split_no_sep _ _ Hplain). reflexivity.
  - replace (dirname ++ "/" ++ basename)%string
      with ((dirname ++ "/") ++ basename)%string
      by (now rewrite append_assoc).
    rewrite (stripTrailingSlash_name _ _ Hname Hplain), append_assoc.
    cbn [String.append].
    rewrite split_app_sep, (split_no_sep _ _ Hplain).
    rewrite removelast_last. apply join_split.
Qed.

(** Under a missing parent folder [dirname], a folder with a plain name is
    refused with [not found parent "dirname"]. *)
Lemma createFolder_requires_named_parent
    (typeValue : OBJECT_TYPE -> Z) (env : Env)
    (dirname basename : string) (w : World) :
  JsString.count "/"%char basename = 0 ->
  dirname <> EmptyString ->
  hasFolder (dirname ++ "/") (table w) = false ->
  createFolder typeValue env dirname basename w
  = (Thrown (NotFoundError (MsgNotFoundParent dirname)), w).
Proof.
  intros Hplain Hdirname Hmissing.
  unfold createFolder, bind. cbn [draftPath].
  rewrite requireParent_run. unfold parentFound.
  rewrite (dirname_folderPath _ _ Hplain), Hmissing.
  unfold JsString.truthy.
  apply String.eqb_neq in Hdirname. now rewrite Hdirname.
Qed.

(** ** Creation of a file: compensation *)

Section Compensation.

Variable typeValue : OBJECT_TYPE -> Z.
Variable env : Env.

Lemma withoutProvisional_unfold rows saved :
  withoutProvisional typeValue rows saved
  = filter (fun row => negb (Z.eqb (id row) (id saved))) rows.
Proof.
  unfold withoutProvisional. rewrite filter_app. cbn.
  rewrite Z.eqb_refl. cbn. apply app_nil_r.
Qed.

Lemma withoutProvisional_incl rows saved o :
  In o (withoutProvisional typeValue rows saved) -> In o rows.
Proof.
  rewrite withoutProvisional_unfold. intros Hin.
  now apply filter_In in Hin.
Qed.

Lemma withoutProvisional_path_free rows saved p :
  pathTaken p rows = false ->
  pathTaken p (withoutProvisional typeValue rows saved) = false.
Proof.
  unfold pathTaken. intros Hfree.
  destruct (existsb _ (withoutProvisional typeValue rows saved)) eqn:Htaken;
    [|reflexivity].
  apply existsb_exists in Htaken as [o [Hin Hpath]].
  apply withoutProvisional_incl in Hin.
  assert (Hex : existsb (fun o => String.eqb (path o) p) rows = true)
    by (apply existsb_exists; eauto).
  congruence.
Qed.

Lemma withoutProvisional_fresh rows saved :
  idsBelow (id saved) rows = true ->
  withoutProvisional typeValue rows saved = rows.
Proof.
  rewrite withoutProvisional_unfold. unfold idsBelow. intros Hbelow.
  apply forallb_filter_id.
  rewrite forallb_forall in *. intros o Hin.
  specialize (Hbelow o Hin). apply Z.ltb_lt in Hbelow.
  apply negb_true_iff, Z.eqb_neq. lia.
Qed.

(** The run of [createFile] once the provisional row is inserted, when one
    of the later steps fails: the row is destroyed and the error rethrown. *)
Lemma createFile_failure_run
    (localPath dirname : string) (w : World) (e : Error) :
  let p := filePath dirname (NodePath.basename localPath) in
  let saved :=
    newRow (nextId w)
      {| draftType := FILE; draftPath := p;
         draftStorageClass := Some STANDARD |} in
  parentFound p (table w) = true ->
  pathTaken p (table w) = false ->
  confirmationFailure env saved = Some e ->
  exists calls,
    createFile typeValue env localPath dirname w
    = (Thrown e,
       {| table := withoutProvisional typeValue (table w) saved;
          nextId := nextId w + 1;
          remoteCalls := calls;
          localWrites := localWrites w |}).
Proof.
  intros p saved Hparent Hfree Hfail.
  unfold createFile, bind. cbn [draftPath]. fold p.
  rewrite requireParent_run, Hparent, saveOrConflict_run.
  cbn [draftPath]. rewrite Hfree. fold saved.
  unfold tryCatch, bind, s3_upload, s3_headObject, remote, unitAnswer,
    update, destroyInstance, destroy, throw.
  unfold confirmationFailure in Hfail.
  destruct (uploadAnswer env (path saved)) as [e1|].
  - injection Hfail as <-. cbn. eexists. reflexivity.
  - destruct (headObjectAnswer env (path saved)) as [e2|objectHeaders].
    + injection Hfail as <-. cbn. eexists. reflexivity.
    + cbn. rewrite Hfail. cbn. eexists. reflexivity.
Qed.

(** The run of [createFile] when every step succeeds. *)
Lemma createFile_success_run (localPath dirname : string) (w : World) :
  let p := filePath dirname (NodePath.basename localPath) in
  let saved :=
    newRow (nextId w)
      {| draftType := FILE; draftPath := p;
         draftStorageClass := Some STANDARD |} in
  parentFound p (table w) = true ->
  pathTaken p (table w) = false ->
  confirmationFailure env saved = None ->
  exists objectHeaders calls,
    createFile typeValue env localPath dirname w
    = (Returned (withHeaders saved objectHeaders),
       {| table :=
            map (fun row =>
                   if Z.eqb (id row) (nextId w)
                   then withHeaders saved objectHeaders else row)
                (table w ++ [saved]);
          nextId := nextId w + 1;
          remoteCalls := calls;
          localWrites := localWrites w |}).
Proof.
  intros p saved Hparent Hfree Hfine.
  unfold createFile, bind. cbn [draftPath]. fold p.
  rewrite requireParent_run, Hparent, saveOrConflict_run.
  cbn [draftPath]. rewrite Hfree. fold saved.
  unfold tryCatch, bind, s3_upload, s3_headObject, remote, unitAnswer,
    update, destroyInstance, destroy, throw, ret.
  unfold confirmationFailure in Hfine.
  destruct (uploadAnswer env (path saved)) as [e1|]; [discriminate|].
  destruct (headObjectAnswer env (path saved)) as [e2|objectHeaders];
    [discriminate|].
  cbn. rewrite Hfine. cbn. eexists. eexists. reflexivity.
Qed.

(** C3. When the provisional row of [createFile] was inserted (the parent
    check passed and the path was free) and the upload, the [headObject] or
    the update of size and lastModified fails with [e], the row is destroyed
    and [e] itself is thrown: afterwards no row has the candidate path, every
    remaining row was there before, and with ids handed out by the counter
    the table is exactly the one before the call. *)
Theorem createFile_compensates
    (localPath dirname : string) (w : World) (e : Error) :
  let p := filePath dirname (NodePath.basename localPath) in
  let saved :=
    newRow (nextId w)
      {| draftType := FILE; draftPath := p;
         draftStorageClass := Some STANDARD |} in
  parentFound p (table w) = true ->
  pathTaken p (table w) = false ->
  confirmationFailure env saved = Some e ->
  exists w',
    createFile typeValue env localPath dirname w = (Thrown e, w')
    /\ pathTaken p (table w') = false
    /\ (forall o, In o (table w') -> In o (table w))
    /\ (idsBelow (nextId w) (table w) = true -> table w' = table w).
Proof.
  intros p saved Hparent Hfree Hfail.
  destruct (createFile_failure_run localPath dirname w e Hparent Hfree Hfail)
    as [calls Hrun].
  eexists. split; [exact Hrun|]. cbn [table]. split; [|split].
  - now apply withoutProvisional_path_free.
  - intros o. apply withoutProvisional_incl.
  - intros Hbelow. now apply withoutProvisional_fresh.
Qed.

End Compensation.

Lemma createFile_compensates_witness :
  exists w',
    createFile Sample.folderFirst Sample.uploadRefused "/tmp/n.txt" "a"
      Sample.tree
    = (Thrown (RemoteError "AccessDenied"), w')
    /\ pathTaken "a/n.txt" (table w') = false
    /\ table w' = table Sample.tree.
Proof.
  destruct (createFile_compensates Sample.folderFirst Sample.uploadRefused
              "/tmp/n.txt" "a" Sample.tree (RemoteError "AccessDenied")
              eq_refl eq_refl eq_refl)
    as [w' [Hrun [Hfree [_ Hsame]]]].
  exists w'. split; [exact Hrun|]. split; [exact Hfree|].
  apply Hsame. reflexivity.
Defined.

(** ** What a creation leaves behind *)

Section Outcome.

Variable typeValue : OBJECT_TYPE -> Z.
Variable env : Env.

Lemma update_fresh (rows : list ObjectModel) (o : ObjectModel) :
  idsBelow (id o) rows = true ->
  map (fun row => if Z.eqb (id row) (id o) then o else row) rows = rows.
Proof.
  unfold idsBelow. intros Hbelow.
  induction rows as [|r rows IH]; [reflexivity|].
  cbn in Hbelow. apply andb_true_iff in Hbelow as [Hr Hrows].
  apply Z.ltb_lt in Hr. cbn.
  destruct (Z.eqb_spec (id r) (id o)) as [Heq|_]; [lia|].
  now rewrite IH.
Qed.

(** Either a creation leaves the table as it was, or it appends one row:
    the row of the candidate path, with the next id, whose parent check
    passed and whose path was free.  A creation that returns is in the
    second case and returns that row. *)
Lemma create_outcome (request : Creation) (w w' : World)
    (outcome : Outcome ObjectModel) :
  idsBelow (nextId w) (table w) = true ->
  create typeValue env request w = (outcome, w') ->
  (table w' = table w
   /\ (nextId w <= nextId w' <= nextId w + 1)%Z
   /\ forall r, outcome <> Returned r)
  \/ (exists r,
        table w' = table w ++ [r]
        /\ id r = nextId w
        /\ path r = candidatePath request
        /\ nextId w' = (nextId w + 1)%Z
        /\ parentFound (candidatePath request) (table w) = true
        /\ pathTaken (candidatePath request) (table w) = false
        /\ forall r', outcome = Returned r' -> r' = r).
Proof.
  intros Hbelow.
  destruct request as [dirname basename | localPath dirname];
    cbn [create candidatePath].
  - unfold createFolder, bind. cbn [draftPath].
    rewrite requireParent_run.
    destruct (parentFound _ (table w)) eqn:Hparent.
    2:{ intros [= <- <-]. left. repeat split; [lia | lia | discriminate]. }
    rewrite saveOrConflict_run. cbn [draftPath].
    destruct (pathTaken _ (table w)) eqn:Htaken.
    { intros [= <- <-]. left. repeat split; [lia | lia | discriminate]. }
    unfold s3_putObject, remote, unitAnswer, ret.
    destruct (putObjectAnswer env _); intros [= <- <-]; right;
      eexists; cbn [table nextId]; repeat split; try reflexivity;
      try congruence; auto.
  - unfold createFile, bind. cbn [draftPath].
    rewrite requireParent_run.
    destruct (parentFound _ (table w)) eqn:Hparent.
    2:{ intros [= <- <-]. left. repeat split; [lia | lia | discriminate]. }
    rewrite saveOrConflict_run. cbn [draftPath].
    destruct (pathTaken _ (table w)) eqn:Htaken.
    { intros [= <- <-]. left. repeat split; [lia | lia | discriminate]. }
    pose proof (createFile_failure_run typeValue env localPath dirname w)
      as Hfailure.
    pose proof (createFile_success_run typeValue env localPath dirname w
                  Hparent Htaken) as Hsuccess.
    cbv zeta in Hfailure, Hsuccess.
    set (saved := newRow (nextId w) _) in *.
    destruct (confirmationFailure env saved) as [e|] eqn:Hsteps.
    + destruct (Hfailure e Hparent Htaken eq_refl) as [calls Hrun].
      unfold createFile, bind in Hrun. cbn [draftPath] in Hrun.
      rewrite requireParent_run, Hparent, saveOrConflict_run in Hrun.
      cbn [draftPath] in Hrun. rewrite Htaken in Hrun. fold saved in Hrun.
      rewrite Hrun. intros [= <- <-]. left. cbn [table nextId].
      rewrite withoutProvisional_fresh by exact Hbelow.
      repeat split; [lia | lia | discriminate].
    + destruct (Hsuccess eq_refl) as [objectHeaders [calls Hrun]].
      unfold createFile, bind in Hrun. cbn [draftPath] in Hrun.
      rewrite requireParent_run, Hparent, saveOrConflict_run in Hrun.
      cbn [draftPath] in Hrun. rewrite Htaken in Hrun. fold saved in Hrun.
      rewrite Hrun. intros [= <- <-]. right.
      exists (withHeaders saved objectHeaders). cbn [table nextId].
      repeat split; try reflexivity; auto; [|congruence].
      rewrite map_app. cbn [map]. rewrite Z.eqb_refl.
      f_equal. apply (update_fresh (table w) (withHeaders saved objectHeaders)).
      exact Hbelow.
Qed.

Lemma existsb_app_l {A} (f : A -> bool) (l l' : list A) :
  existsb f l = true -> existsb f (l ++ l') = true.
Proof. intros H. rewrite existsb_app, H. reflexivity. Qed.

Lemma parentFound_app (p : string) (rows more : list ObjectModel) :
  parentFound p rows = true -> parentFound p (rows ++ more) = true.
Proof.
  unfold parentFound, hasFolder. intros Hfound.
  apply orb_true_iff in Hfound as [Hroot|Hfolder].
  - now rewrite Hroot.
  - rewrite (existsb_app_l _ _ _ Hfolder). apply orb_true_r.
Qed.

(** X23. Of two identical creations in a row, the first one that succeeds
    makes the second a conflict, which changes nothing. *)
Lemma create_twice_conflict (request : Creation) (w w' : World)
    (created : ObjectModel) :
  idsBelow (nextId w) (table w) = true ->
  create typeValue env request w = (Returned created, w') ->
  create typeValue env request w'
  = (Thrown (ConflictError (UniqueConstraintError ["path"])
               SHOW_OBJECT_DUPLICATED_ALERT (candidatePath request)),
     w').
Proof.
  intros Hbelow Hrun.
  destruct (create_outcome _ _ _ _ Hbelow Hrun)
    as [[_ [_ Hnot]] | [r [Htable [_ [Hpath [_ [Hparent _]]]]]]].
  { exfalso. now apply (Hnot created). }
  apply create_conflict_checked; rewrite Htable.
  - now apply parentFound_app.
  - unfold pathTaken. rewrite existsb_app. cbn.
    rewrite Hpath, String.eqb_refl. apply orb_true_r.
Qed.

(** X24. The invariants of the index survive every creation, whatever its
    outcome. *)
Lemma create_preserves_invariant (request : Creation) (w w' : World)
    (outcome : Outcome ObjectModel) :
  indexInvariant w = true ->
  create typeValue env request w = (outcome, w') ->
  indexInvariant w' = true.
Proof.
  unfold indexInvariant. rewrite !andb_true_iff.
  intros [[Hbelow Hkey] Hparents] Hrun.
  destruct (create_outcome _ _ _ _ Hbelow Hrun)
    as [[Htable [Hnext _]]
       | [r [Htable [Hid [Hpath [Hnext [Hparent Hfree]]]]]]];
    rewrite Htable.
  - repeat split; auto.
    unfold idsBelow in *. rewrite forallb_forall in *.
    intros o Ho. specialize (Hbelow o Ho).
    apply Z.ltb_lt in Hbelow. apply Z.ltb_lt. lia.
  - repeat split.
    + unfold idsBelow in *. rewrite forallb_app. cbn.
      rewrite andb_true_r. apply andb_true_iff. split.
      * rewrite forallb_forall in *. intros o Ho. specialize (Hbelow o Ho).
        apply Z.ltb_lt in Hbelow. apply Z.ltb_lt. lia.
      * apply Z.ltb_lt. lia.
    + unfold primaryKey in *. rewrite map_app. cbn [map].
      unfold idsBelow in Hbelow. rewrite forallb_forall in Hbelow.
      revert Hkey Hbelow. generalize (table w) as rows.
      induction rows as [|o rows IH]; cbn; intros Hkey Hbelow; [reflexivity|].
      apply andb_true_iff in Hkey as [Hfresh Hrest].
      apply andb_true_iff. split.
      * rewrite existsb_app. cbn. apply negb_true_iff in Hfresh.
        rewrite Hfresh, orb_false_r. cbn. apply negb_true_iff, Z.eqb_neq.
        specialize (Hbelow o (or_introl eq_refl)).
        apply Z.ltb_lt in Hbelow. lia.
      * apply IH; auto.
    + unfold parentsExist in *. rewrite forallb_app. cbn.
      rewrite andb_true_r. apply andb_true_iff. split.
      * rewrite forallb_forall in *. intros o Ho.
        apply parentFound_app. now apply Hparents.
      * rewrite Hpath. now apply parentFound_app.
Qed.

End Outcome.

Example createFolder_twice :
  let first :=
    createFolder Sample.folderFirst Sample.reliable "" "docs" Sample.empty in
  let second :=
    createFolder Sample.folderFirst Sample.reliable "" "docs" (snd first) in
  map path (table (snd first)) = ["docs/"]
  /\ remoteCalls (snd first) = [PutObject "docs/"]
  /\ second
     = (Thrown (ConflictError (UniqueConstraintError ["path"])
                  SHOW_OBJECT_DUPLICATED_ALERT "docs/"),
        snd first).
Proof. vm_compute. auto. Qed.

(** ** Bulk requests: validation of the ids *)

Lemma distinct_NoDup (values : list Z) :
  distinct values = true -> NoDup values.
Proof.
  induction values as [|v rest IH]; cbn; intros Hdistinct; constructor.
  - apply andb_true_iff in Hdistinct as [Hfresh _].
    apply negb_true_iff in Hfresh. intros Hin.
    assert (Hex : existsb (Z.eqb v) rest = true).
    { apply existsb_exists. exists v. split; [exact Hin | apply Z.eqb_refl]. }
    congruence.
  - apply IH. now apply andb_true_iff in Hdistinct.
Qed.

Lemma NoDup_map_filter {A B} (f : A -> B) (keep : A -> bool) (l : list A) :
  NoDup (map f l) -> NoDup (map f (filter keep l)).
Proof.
  induction l as [|x l IH]; cbn; intros Hnodup; [constructor|].
  inversion Hnodup as [|? ? Hfresh Hrest]; subst.
  destruct (keep x); cbn; [constructor|]; auto.
  intros Hin. apply Hfresh.
  apply in_map_iff in Hin as [y [Heq Hy]].
  apply in_map_iff. exists y. split; [exact Heq|].
  now apply filter_In in Hy.
Qed.

Lemma stableSort_unordered {A} (leb : A -> A -> bool) (l : list A) :
  (forall a b, leb a b = true) -> stableSort leb l = l.
Proof.
  intros Htrue. induction l as [|x l IH]; [reflexivity|].
  cbn. unfold stableSort in IH. rewrite IH.
  destruct l; cbn; [reflexivity | now rewrite Htrue].
Qed.

Section Validation.

Variable typeValue : OBJECT_TYPE -> Z.
Variable env : Env.

(** The rows fetched for a list of ids: the rows of the table whose id is
    listed, each once, in table order. *)
Lemma select_byIds (ids : list Z) (rows : list ObjectModel) :
  select typeValue (byIds ids) rows
  = filter (fun o => existsb (Z.eqb (id o)) ids) rows.
Proof.
  unfold select, byIds. cbn [limit order where_ applyLimit].
  rewrite stableSort_unordered by reflexivity.
  reflexivity.
Qed.

Lemma includes_fetched (ids : list Z) (rows : list ObjectModel) (v : Z) :
  In v ids ->
  includes (map id (select typeValue (byIds ids) rows)) v = resolves rows v.
Proof.
  intros Hin. rewrite select_byIds. unfold includes, resolves.
  destruct (existsb (fun o => Z.eqb (id o) v) rows) eqn:Hresolves.
  - apply existsb_exists in Hresolves as [o [Ho Hid]].
    apply Z.eqb_eq in Hid. apply existsb_exists. exists v.
    split; [|apply Z.eqb_refl].
    apply in_map_iff. exists o. split; [exact Hid|].
    apply filter_In. split; [exact Ho|].
    apply existsb_exists. exists v. split; [exact Hin|].
    now apply Z.eqb_eq.
  - destruct (existsb (Z.eqb v) _) eqn:Hfetched; [|reflexivity].
    apply existsb_exists in Hfetched as [v' [Hv' Heq]].
    apply Z.eqb_eq in Heq. subst v'.
    apply in_map_iff in Hv' as [o [Hid Ho]].
    apply filter_In in Ho as [Ho _].
    assert (Hex : existsb (fun o => Z.eqb (id o) v) rows = true).
    { apply existsb_exists. exists o. split; [exact Ho|]. now apply Z.eqb_eq. }
    congruence.
Qed.

(** The loop that looks for a missing id throws at the first one, and
    changes nothing. *)
Lemma forEach_missing (existsIds ids : list Z) (message : Z -> Message)
    (w : World) :
  forEach ids
    (fun v =>
       if negb (includes existsIds v)
       then throw (NotFoundError (message v))
       else ret tt) w
  = (match find (fun v => negb (includes existsIds v)) ids with
     | Some missing => Thrown (NotFoundError (message missing))
     | None => Returned tt
     end, w).
Proof.
  induction ids as [|v ids IH]; [reflexivity|].
  cbn [forEach find]. unfold bind.
  destruct (negb (includes existsIds v)); [reflexivity|].
  cbn. exact IH.
Qed.

(** With a primary key, a request naming an id that has no row fetches
    fewer rows than it lists ids. *)
Lemma fetched_fewer (ids : list Z) (rows : list ObjectModel) :
  primaryKey rows = true ->
  allResolve rows ids = false ->
  List.length (select typeValue (byIds ids) rows) < List.length ids.
Proof.
  intros Hkey Hmissing.
  assert (Hsome : exists missing, In missing ids /\ resolves rows missing = false).
  { unfold allResolve in Hmissing.
    induction ids as [|v ids IH]; [discriminate|].
    cbn in Hmissing. destruct (resolves rows v) eqn:Hv.
    - destruct (IH Hmissing) as [m [Hm Hres]]. exists m. cbn. auto.
    - exists v. cbn. auto. }
  destruct Hsome as [missing [Hin Hres]].
  rewrite select_byIds.
  rewrite <- (length_map id).
  apply Nat.le_lt_trans with (List.length (remove Z.eq_dec missing ids));
    [|now apply remove_length_lt].
  apply NoDup_incl_length.
  - apply NoDup_map_filter, distinct_NoDup, Hkey.
  - intros v Hv. apply in_map_iff in Hv as [o [Hid Ho]].
    apply filter_In in Ho as [Ho Hlisted].
    apply existsb_exists in Hlisted as [v' [Hv' Heq]].
    apply Z.eqb_eq in Heq. subst v'. rewrite Hid in Hv'.
    apply in_in_remove; [|exact Hv'].
    intros ->. unfold resolves in Hres.
    assert (Hex : existsb (fun o => Z.eqb (id o) missing) rows = true).
    { apply existsb_exists. exists o. split; [exact Ho|]. now apply Z.eqb_eq. }
    congruence.
Qed.

Lemma find_missing (ids : list Z) (rows : list ObjectModel) :
  allResolve rows ids = false ->
  exists missing,
    find (fun v =>
            negb (includes (map id (select typeValue (byIds ids) rows)) v))
         ids = Some missing
    /\ In missing ids
    /\ resolves rows missing = false.
Proof.
  intros Hmissing.
  destruct (find _ ids) as [missing|] eqn:Hfind.
  - apply find_some in Hfind as [Hin Hnot].
    exists missing. split; [reflexivity|]. split; [exact Hin|].
    rewrite includes_fetched in Hnot by exact Hin.
    now apply negb_true_iff in Hnot.
  - exfalso. unfold allResolve in Hmissing.
    assert (Hall : forallb (resolves rows) ids = true).
    { apply forallb_forall. intros v Hin.
      pose proof (find_none _ _ Hfind v Hin) as Hv. cbv beta in Hv.
      rewrite includes_fetched in Hv by exact Hin.
      now apply negb_false_iff in Hv. }
    congruence.
Qed.

(** C6. When some requested id has no row, [deleteObjects] and
    [downloadObjects] fail with a [NotFoundError] naming a missing id (the
    first one of the request), and the world is the one they started from:
    no row destroyed, no call to the remote adapter, no local file opened. *)
Theorem bulk_validates_first (request : Bulk) (w : World) :
  primaryKey (table w) = true ->
  allResolve (table w) (requestedIds request) = false ->
  exists missing,
    In missing (requestedIds request)
    /\ resolves (table w) missing = false
    /\ bulk typeValue env request w
       = (Thrown (NotFoundError (missingMessage request missing)), w).
Proof.
  intros Hkey Hmissing.
  pose proof (fetched_fewer _ _ Hkey Hmissing) as Hfewer.
  destruct (find_missing _ _ Hmissing) as [missing [Hfind [Hin Hres]]].
  exists missing. split; [exact Hin|]. split; [exact Hres|].
  assert (Hdiffer :
            negb (Nat.eqb
                    (List.length
                       (select typeValue (byIds (requestedIds request))
                          (table w)))
                    (List.length (requestedIds request))) = true).
  { apply negb_true_iff, Nat.eqb_neq. lia. }
  destruct request as [ids | localPath dirname ids];
    cbn [bulk requestedIds missingMessage] in *.
  - unfold deleteObjects, bind, findAll.
    rewrite Hdiffer, forEach_missing, Hfind. reflexivity.
  - unfold downloadObjects, bind, findAll.
    rewrite Hdiffer, forEach_missing, Hfind. reflexivity.
Qed.

End Validation.

Lemma bulk_validates_first_witness :
  exists missing,
    In missing [4%Z; 8%Z]
    /\ resolves (table Sample.tree) missing = false
    /\ bulk Sample.folderFirst Sample.reliable (BulkDelete [4%Z; 8%Z])
         Sample.tree
       = (Thrown (NotFoundError (MsgNotFoundQuoted missing)), Sample.tree).
Proof.
  exact (bulk_validates_first Sample.folderFirst Sample.reliable
           (BulkDelete [4%Z; 8%Z]) Sample.tree eq_refl eq_refl).
Defined.

(** ** Bulk deletion *)

Section Deletion.

Variable typeValue : OBJECT_TYPE -> Z.
Variable env : Env.

Lemma select_deep (t : OBJECT_TYPE) (folder : string)
    (rows : list ObjectModel) :
  select typeValue (deepQuery t folder) rows = below t folder rows.
Proof.
  unfold select, deepQuery, below. cbn [limit order where_ applyLimit].
  rewrite stableSort_unordered by reflexivity.
  apply filter_ext. intros o. cbn [matches forallb].
  now rewrite like_anchored, andb_true_r.
Qed.

Lemma collectAll_run (objects files folders : list ObjectModel) (w : World) :
  collectAll typeValue objects files folders w
  = (Returned (files ++ flat_map (expandFiles (table w)) objects,
               folders ++ flat_map (expandFolders (table w)) objects),
     w).
Proof.
  revert files folders.
  induction objects as [|o objects IH]; intros files folders.
  - cbn. now rewrite !app_nil_r.
  - cbn [collectAll flat_map]. unfold expandFiles at 1, expandFolders at 1.
    destruct (type o).
    + unfold bind, promiseAll2, findAll. cbn [fst snd].
      rewrite IH, !select_deep, <- !app_assoc. reflexivity.
    + rewrite IH, <- !app_assoc. cbn. reflexivity.
Qed.

(** When every id has a row, the search for a missing id finds none. *)
Lemma validation_passes (ids : list Z) (message : Z -> Message) (w : World) :
  allResolve (table w) ids = true ->
  forEach ids
    (fun v =>
       if negb (includes (map id (select typeValue (byIds ids) (table w))) v)
       then throw (NotFoundError (message v))
       else ret tt) w
  = (Returned tt, w).
Proof.
  intros Hall. rewrite forEach_missing.
  destruct (find _ ids) as [missing|] eqn:Hfind; [|reflexivity].
  apply find_some in Hfind as [Hin Hnot].
  rewrite includes_fetched in Hnot by exact Hin.
  unfold allResolve in Hall. rewrite forallb_forall in Hall.
  rewrite (Hall _ Hin) in Hnot. discriminate.
Qed.

(** The run of [deleteObjects] when validation passes and the remote
    deletions are accepted. *)
Lemma deleteObjects_run (ids : list Z) (w : World) :
  allResolve (table w) ids = true ->
  (forall paths, deleteObjectsAnswer env paths = None) ->
  let objects := select typeValue (byIds ids) (table w) in
  let files := flat_map (expandFiles (table w)) objects in
  let folders := flat_map (expandFolders (table w)) objects in
  deleteObjects typeValue env ids w
  = (Returned tt,
     afterBatch folders (stableSort deeperFirst (map path folders))
       (afterBatch files (map path files) w)).
Proof.
  intros Hall Hremote objects files folders.
  unfold deleteObjects, bind, findAll. cbn [fst snd].
  assert (Hvalid :
            (if negb (Nat.eqb
                        (List.length (select typeValue (byIds ids) (table w)))
                        (List.length ids))
             then
               forEach ids
                 (fun v =>
                    if negb (includes
                               (map id (select typeValue (byIds ids) (table w)))
                               v)
                    then throw (NotFoundError (MsgNotFoundQuoted v))
                    else ret tt)
             else ret tt) w = (Returned tt, w)).
  { destruct (negb _); [now apply validation_passes | reflexivity]. }
  rewrite Hvalid, collectAll_run. cbn [app fst snd].
  fold objects. fold files. fold folders.
  unfold afterBatch.
  destruct (nonEmpty files); destruct (nonEmpty folders);
    unfold promiseAll2, s3_deleteObjects, remote, unitAnswer, destroy, ret;
    rewrite ?Hremote; cbn; reflexivity.
Qed.

Lemma OBJECT_TYPE_eqb_eq (a b : OBJECT_TYPE) :
  OBJECT_TYPE_eqb a b = true <-> a = b.
Proof. destruct a, b; cbn; split; congruence. Qed.

Lemma in_below (t : OBJECT_TYPE) (folder : string)
    (rows : list ObjectModel) (o : ObjectModel) :
  In o (below t folder rows)
  <-> In o rows /\ type o = t /\ Utils.likePrefix folder (path o) = true.
Proof.
  unfold below. rewrite filter_In, andb_true_iff, OBJECT_TYPE_eqb_eq. tauto.
Qed.

Lemma in_fetched (ids : list Z) (rows : list ObjectModel) (o : ObjectModel) :
  In o (select typeValue (byIds ids) rows) <-> In o rows /\ In (id o) ids.
Proof.
  rewrite select_byIds, filter_In, existsb_exists.
  split; intros [Hin Hid]; (split; [exact Hin|]).
  - destruct Hid as [v [Hv Heq]]. apply Z.eqb_eq in Heq. now subst v.
  - exists (id o). split; [exact Hid | apply Z.eqb_refl].
Qed.

(** The two arrays hold exactly the collected rows, split by type. *)
Lemma in_files (ids : list Z) (rows : list ObjectModel) (o : ObjectModel) :
  In o (flat_map (expandFiles rows) (select typeValue (byIds ids) rows))
  <-> collected rows ids o /\ type o = FILE.
Proof.
  rewrite in_flat_map. unfold collected, expandFiles. split.
  - intros [x [Hx Hin]]. apply in_fetched in Hx as [Hx Hid].
    destruct (type x) eqn:Htype.
    + apply in_below in Hin as [Ho [Hfile Hprefix]]. eauto 10.
    + destruct Hin as [<-|[]]. eauto 10.
  - intros [[Ho [x [Hx [Hid Hcase]]]] Hfile].
    exists x. split; [now apply in_fetched|].
    destruct Hcase as [[Htype ->] | [Htype Hprefix]]; rewrite Htype.
    + now left.
    + now apply in_below.
Qed.

Lemma in_folders (ids : list Z) (rows : list ObjectModel) (o : ObjectModel) :
  In o (flat_map (expandFolders rows) (select typeValue (byIds ids) rows))
  <-> collected rows ids o /\ type o = FOLDER.
Proof.
  rewrite in_flat_map. unfold collected, expandFolders. split.
  - intros [x [Hx Hin]]. apply in_fetched in Hx as [Hx Hid].
    destruct (type x) eqn:Htype.
    + apply in_below in Hin as [Ho [Hfolder Hprefix]]. eauto 10.
    + destruct Hin.
  - intros [[Ho [x [Hx [Hid Hcase]]]] Hfolder].
    exists x. split; [now apply in_fetched|].
    destruct Hcase as [[Htype ->] | [Htype Hprefix]]; rewrite Htype.
    + congruence.
    + now apply in_below.
Qed.

Lemma nonEmpty_in {A} (x : A) (l : list A) : In x l -> nonEmpty l = true.
Proof. destruct l; [intros [] | reflexivity]. Qed.

(** A row of the batch is no longer in the table after the batch. *)
Lemma afterBatch_destroys (batch : list ObjectModel) (paths : list string)
    (w : World) (o : ObjectModel) :
  In o batch -> ~ In o (table (afterBatch batch paths w)).
Proof.
  intros Hbatch. unfold afterBatch.
  rewrite (nonEmpty_in _ _ Hbatch). cbn [table].
  rewrite filter_In. intros [_ Hkept].
  apply negb_true_iff in Hkept.
  assert (Hex : existsb (Z.eqb (id o)) (map id batch) = true).
  { apply existsb_exists. exists (id o).
    split; [now apply in_map | apply Z.eqb_refl]. }
  congruence.
Qed.

Lemma afterBatch_incl (batch : list ObjectModel) (paths : list string)
    (w : World) (o : ObjectModel) :
  In o (table (afterBatch batch paths w)) -> In o (table w).
Proof.
  unfold afterBatch. destruct (nonEmpty batch); [|tauto].
  cbn [table]. rewrite filter_In. tauto.
Qed.

(** A row whose id is not the id of any row of the batch stays. *)
Lemma afterBatch_keeps (batch : list ObjectModel) (paths : list string)
    (w : World) (o : ObjectModel) :
  In o (table w) ->
  (forall b, In b batch -> id b <> id o) ->
  In o (table (afterBatch batch paths w)).
Proof.
  intros Ho Hother. unfold afterBatch.
  destruct (nonEmpty batch); [|exact Ho].
  cbn [table]. apply filter_In. split; [exact Ho|].
  apply negb_true_iff.
  destruct (existsb _ _) eqn:Hex; [|reflexivity].
  apply existsb_exists in Hex as [v [Hv Heq]]. apply Z.eqb_eq in Heq.
  apply in_map_iff in Hv as [b [Hid Hb]].
  exfalso. apply (Hother b Hb). congruence.
Qed.

Lemma afterBatch_calls (batch : list ObjectModel) (paths : list string)
    (w : World) :
  remoteCalls (afterBatch batch paths w)
  = remoteCalls w ++ (if nonEmpty batch then [DeleteObjects paths] else []).
Proof.
  unfold afterBatch. destruct (nonEmpty batch); cbn;
    [reflexivity | now rewrite app_nil_r].
Qed.

(** With a primary key, two rows of the table with the same id are equal. *)
Lemma primaryKey_injective (rows : list ObjectModel) (a b : ObjectModel) :
  primaryKey rows = true -> In a rows -> In b rows -> id a = id b -> a = b.
Proof.
  unfold primaryKey. intros Hkey. apply distinct_NoDup in Hkey.
  induction rows as [|r rows IH]; [intros []|].
  cbn in Hkey. inversion Hkey as [|? ? Hfresh Hrest]; subst.
  intros [->|Ha] [->|Hb] Hid; auto.
  - exfalso. apply Hfresh. rewrite Hid. now apply in_map.
  - exfalso. apply Hfresh. rewrite <- Hid. now apply in_map.
Qed.


End Deletion.



(** LIKE ignores the case of ASCII letters: deleting [a/] also destroys
    [A/] and [A/y.txt]. *)
Example deleteObjects_ignores_case :
  let index :=
    Sample.worldOf [ Sample.row 1 FOLDER "a/"; Sample.row 2 FOLDER "A/";
                     Sample.row 3 FILE "A/y.txt"; Sample.row 4 FILE "b.txt" ]
      5 in
  map path
    (table (snd (deleteObjects Sample.folderFirst Sample.reliable [1%Z] index)))
  = ["b.txt"].
Proof. reflexivity. Qed.

Example deleteObjects_tree :
  let result :=
    deleteObjects Sample.folderFirst Sample.reliable [1%Z] Sample.tree in
  fst result = Returned tt
  /\ map path (table (snd result)) = ["y.txt"; "z/"]
  /\ remoteCalls (snd result)
     = [DeleteObjects ["a/b/x.txt"]; DeleteObjects ["a/b/"; "a/"]].
Proof. vm_compute. auto. Qed.

(** ** Duplicated ids *)

Section Duplicates.

Variable typeValue : OBJECT_TYPE -> Z.
Variable env : Env.

Lemma existsb_nodup (v : Z) (ids : list Z) :
  existsb (Z.eqb v) (nodup Z.eq_dec ids) = existsb (Z.eqb v) ids.
Proof.
  destruct (existsb (Z.eqb v) ids) eqn:Hids.
  - apply existsb_exists in Hids as [v' [Hin Heq]].
    apply existsb_exists. exists v'. split; [|exact Heq].
    now apply nodup_In.
  - destruct (existsb _ (nodup _ _)) eqn:Hnodup; [|reflexivity].
    apply existsb_exists in Hnodup as [v' [Hin Heq]].
    apply nodup_In in Hin.
    assert (Hex : existsb (Z.eqb v) ids = true)
      by (apply existsb_exists; eauto).
    congruence.
Qed.

(** Listing an id twice fetches its row once. *)
Lemma select_nodup (ids : list Z) (rows : list ObjectModel) :
  select typeValue (byIds (nodup Z.eq_dec ids)) rows
  = select typeValue (byIds ids) rows.
Proof.
  rewrite !select_byIds. apply filter_ext. intros o. apply existsb_nodup.
Qed.

Lemma allResolve_nodup (ids : list Z) (rows : list ObjectModel) :
  allResolve rows ids = true -> allResolve rows (nodup Z.eq_dec ids) = true.
Proof.
  unfold allResolve. rewrite !forallb_forall. intros Hall v Hin.
  apply Hall. now apply nodup_In in Hin.
Qed.

(** The search for a missing id, run over any list of ids that have a row. *)
Lemma validation_passes_among (ids listed : list Z) (message : Z -> Message)
    (w : World) :
  allResolve (table w) listed = true ->
  incl listed ids ->
  forEach listed
    (fun v =>
       if negb (includes (map id (select typeValue (byIds ids) (table w))) v)
       then throw (NotFoundError (message v))
       else ret tt) w
  = (Returned tt, w).
Proof.
  intros Hall Hincl. rewrite forEach_missing.
  destruct (find _ listed) as [missing|] eqn:Hfind; [|reflexivity].
  apply find_some in Hfind as [Hin Hnot].
  rewrite includes_fetched in Hnot by (apply Hincl, Hin).
  unfold allResolve in Hall. rewrite forallb_forall in Hall.
  rewrite (Hall _ Hin) in Hnot. discriminate.
Qed.

(** What [deleteObjects] does once the ids are validated. *)
Lemma deleteObjects_validated (ids : list Z) (w : World) :
  allResolve (table w) ids = true ->
  deleteObjects typeValue env ids w
  = deleteObjects typeValue env (nodup Z.eq_dec ids) w.
Proof.
  intros Hall.
  pose proof (allResolve_nodup _ _ Hall) as Hall'.
  assert (Hincl : incl (nodup Z.eq_dec ids) ids)
    by (intros v Hv; now apply nodup_In in Hv).
  unfold deleteObjects, bind, findAll. cbn [fst snd].
  rewrite select_nodup.
  destruct (negb (Nat.eqb _ (List.length ids)));
    destruct (negb (Nat.eqb _ (List.length (nodup Z.eq_dec ids))));
    rewrite ?(validation_passes_among ids ids) by (auto using incl_refl);
    rewrite ?(validation_passes_among ids (nodup Z.eq_dec ids)) by auto;
    reflexivity.
Qed.

(** A request that matches only files collects exactly the matched rows. *)
Lemma expand_files_only (rows matched : list ObjectModel) :
  forallb (fun o => OBJECT_TYPE_eqb (type o) FILE) matched = true ->
  flat_map (expandFiles rows) matched = matched
  /\ flat_map (expandFolders rows) matched = [].
Proof.
  induction matched as [|o matched IH]; [auto|].
  cbn [forallb flat_map]. intros Hfiles.
  apply andb_true_iff in Hfiles as [Hfile Hrest].
  apply OBJECT_TYPE_eqb_eq in Hfile.
  destruct (IH Hrest) as [-> ->].
  unfold expandFiles, expandFolders. rewrite Hfile. auto.
Qed.

(** A matched row is collected: into the files if it is a file, into the
    folders -- its own path begins with itself -- if it is a folder. *)
Lemma matched_collected (ids : list Z) (rows : list ObjectModel)
    (o : ObjectModel) :
  In o (select typeValue (byIds ids) rows) ->
  match type o with
  | FILE => In o (flat_map (expandFiles rows) (select typeValue (byIds ids) rows))
  | FOLDER =>
      In o (flat_map (expandFolders rows) (select typeValue (byIds ids) rows))
  end.
Proof.
  intros Hmatched. pose proof Hmatched as Hin.
  apply in_fetched in Hin as [Hrow Hid].
  destruct (type o) eqn:Htype.
  - apply in_folders. split; [|exact Htype].
    split; [exact Hrow|]. exists o. repeat split; auto.
    right. split; [exact Htype | apply likePrefix_refl].
  - apply in_files. split; [|exact Htype].
    split; [exact Hrow|]. exists o. repeat split; auto.
Qed.

(** C10. Whenever the number of fetched rows differs from the number of
    listed ids, [downloadObjects] throws a [NotFoundError] and does nothing
    else.  That includes a list whose ids all have a row but which repeats
    one: the error then names the whole list.  [deleteObjects] accepts that
    same list: it behaves as on the list without repetition, and when the
    remote deletions are accepted it returns with every matched row
    destroyed -- each matched row was fetched once, so its path is passed
    once to the remote deletion of its batch, and a request that matches only
    files issues the single deletion of exactly the matched paths. *)
Theorem duplicated_ids_download_delete
    (localPath dirname : string) (ids : list Z) (w : World) :
  List.length (select typeValue (byIds ids) (table w)) <> List.length ids ->
  (exists message,
     downloadObjects typeValue env localPath dirname ids w
     = (Thrown (NotFoundError message), w))
  /\ (allResolve (table w) ids = true ->
      downloadObjects typeValue env localPath dirname ids w
      = (Thrown (NotFoundError (MsgNotFoundAll ids)), w)
      /\ deleteObjects typeValue env ids w
         = deleteObjects typeValue env (nodup Z.eq_dec ids) w
      /\ ((forall paths, deleteObjectsAnswer env paths = None) ->
          let matched := select typeValue (byIds ids) (table w) in
          let files := flat_map (expandFiles (table w)) matched in
          let folders := flat_map (expandFolders (table w)) matched in
          exists w',
            deleteObjects typeValue env ids w = (Returned tt, w')
            /\ (forall o, In o (table w) -> In (id o) ids ->
                  In o matched /\ ~ In o (table w'))
            /\ (forall o, In o (table w') -> In o (table w))
            /\ remoteCalls w'
               = remoteCalls w
                 ++ (if nonEmpty files
                     then [DeleteObjects (map path files)] else [])
                 ++ (if nonEmpty folders
                     then [DeleteObjects
                             (stableSort deeperFirst (map path folders))]
                     else [])
            /\ (forall o, In o matched ->
                  match type o with
                  | FILE => In o files
                  | FOLDER => In o folders
                  end)
            /\ (primaryKey (table w) = true -> NoDup (map id matched))
            /\ (forallb (fun o => OBJECT_TYPE_eqb (type o) FILE) matched = true ->
                files = matched /\ folders = []))).
Proof.
  intros Hdiffer.
  apply Nat.eqb_neq in Hdiffer.
  assert (Hrun :
            downloadObjects typeValue env localPath dirname ids w
            = (match find
                       (fun v =>
                          negb (includes
                                  (map id (select typeValue (byIds ids)
                                             (table w))) v)) ids with
               | Some missing =>
                   Thrown (NotFoundError (MsgNotFoundObjectQuoted missing))
               | None => Thrown (NotFoundError (MsgNotFoundAll ids))
               end, w)).
  { unfold downloadObjects, bind, findAll. cbn [fst snd].
    rewrite Hdiffer. cbn [negb]. rewrite forEach_missing.
    destruct (find _ ids); reflexivity. }
  split.
  - rewrite Hrun. destruct (find _ ids); eexists; reflexivity.
  - intros Hall. split; [|split].
    + rewrite Hrun.
      destruct (find _ ids) as [missing|] eqn:Hfind; [|reflexivity].
      apply find_some in Hfind as [Hin Hnot].
      rewrite includes_fetched in Hnot by exact Hin.
      unfold allResolve in Hall. rewrite forallb_forall in Hall.
      rewrite (Hall _ Hin) in Hnot. discriminate.
    + now apply deleteObjects_validated.
    + intros Hremote matched files folders.
      pose proof (deleteObjects_run typeValue env ids w Hall Hremote) as Hdelete.
      cbv zeta in Hdelete. fold matched files folders in Hdelete.
      eexists. split; [exact Hdelete|].
      split; [|split; [|split; [|split; [|split]]]].
      * intros o Hrow Hid.
        assert (Hmatched : In o matched) by (apply in_fetched; auto).
        split; [exact Hmatched|].
        pose proof (matched_collected ids (table w) o Hmatched) as Hcollected.
        fold matched files folders in Hcollected.
        destruct (type o).
        -- now apply afterBatch_destroys.
        -- intros Hstill. apply afterBatch_incl in Hstill.
           revert Hstill. now apply afterBatch_destroys.
      * intros o Hin. now apply afterBatch_incl, afterBatch_incl in Hin.
      * rewrite !afterBatch_calls, <- app_assoc. reflexivity.
      * intros o Hmatched. apply (matched_collected ids (table w) o Hmatched).
      * intros Hkey. unfold matched. rewrite select_byIds.
        apply NoDup_map_filter. now apply distinct_NoDup.
      * apply expand_files_only.
Qed.

End Duplicates.

Lemma duplicated_ids_download_delete_witness :
  downloadObjects Sample.folderFirst Sample.reliable "/home/me/dl" ""
    [4%Z; 4%Z] Sample.tree
  = (Thrown (NotFoundError (MsgNotFoundAll [4%Z; 4%Z])), Sample.tree)
  /\ deleteObjects Sample.folderFirst Sample.reliable [4%Z; 4%Z] Sample.tree
     = deleteObjects Sample.folderFirst Sample.reliable [4%Z] Sample.tree
  /\ exists w',
       deleteObjects Sample.folderFirst Sample.reliable [4%Z; 4%Z] Sample.tree
       = (Returned tt, w')
       /\ ~ In (Sample.row 4 FILE "y.txt") (table w')
       /\ remoteCalls w' = [DeleteObjects ["y.txt"]].
Proof.
  assert (Hdiffer :
            List.length (select Sample.folderFirst (byIds [4%Z; 4%Z])
                           (table Sample.tree))
            <> List.length [4%Z; 4%Z]) by (vm_compute; lia).
  destruct (duplicated_ids_download_delete Sample.folderFirst Sample.reliable
              "/home/me/dl" "" [4%Z; 4%Z] Sample.tree Hdiffer)
    as [_ Hlisted].
  destruct (Hlisted eq_refl) as [Hdownload [Hdelete Hdeleted]].
  split; [exact Hdownload|]. split; [exact Hdelete|].
  destruct (Hdeleted (fun _ => eq_refl))
    as [w' [Hrun [Hgone [_ [Hcalls _]]]]].
  exists w'. split; [exact Hrun|]. split.
  - apply (Hgone (Sample.row 4 FILE "y.txt")); cbn; auto.
  - exact Hcalls.
Defined.

(** ** Download targets *)

Lemma replace_prefix_strips (prefix s : string) :
  String.prefix prefix s = true ->
  JsString.replace prefix EmptyString s = Reference.stripPrefix prefix s.
Proof.
  intros Hprefix. rewrite replace_unfold, Hprefix. reflexivity.
Qed.

(** The target of a path that starts with the requested dirname. *)
Lemma downloadTarget_prefixed (localPath dirname filePath : string) :
  String.prefix dirname filePath = true ->
  downloadTarget localPath dirname filePath
  = NodePath.join
      (localPath
       :: JsString.split "/"%char (Reference.stripPrefix dirname filePath)).
Proof.
  intros Hprefix. unfold downloadTarget.
  now rewrite (replace_prefix_strips _ _ Hprefix).
Qed.

Example downloadTarget_nested :
  downloadTarget "/home/me/dl" "a" "a/b/x.txt" = "/home/me/dl/b/x.txt".
Proof. reflexivity. Qed.

(** ** Bulk download *)

Section Download.

Variable typeValue : OBJECT_TYPE -> Z.
Variable env : Env.

Lemma collectFiles_run (objects files : list ObjectModel) (w : World) :
  collectFiles typeValue objects files w
  = (Returned (files ++ flat_map (expandFiles (table w)) objects), w).
Proof.
  revert files. induction objects as [|o objects IH]; intros files.
  - cbn. now rewrite app_nil_r.
  - cbn [collectFiles flat_map]. unfold expandFiles at 1.
    destruct (type o).
    + unfold bind, findAll.
      rewrite IH, select_deep, <- app_assoc. reflexivity.
    + rewrite IH, <- app_assoc. reflexivity.
Qed.

(** The files the transfers open: one per file whose [getObject] was
    answered, in order, at its download target.  The index is not touched. *)
Lemma transfers_run (localPath dirname : string) (files : list ObjectModel)
    (w : World) :
  let after := snd (promiseAllLimit1 files (transfer env localPath dirname) w) in
  localWrites after
  = localWrites w
    ++ map (fun file => downloadTarget localPath dirname (path file))
         (filter (fun file =>
                    match getObjectAnswer env (path file) with
                    | inr _ => true
                    | inl _ => false
                    end) files)
  /\ table after = table w.
Proof.
  revert w. induction files as [|file files IH]; intros w.
  - cbn. now rewrite app_nil_r.
  - cbn [promiseAllLimit1 filter map].
    destruct (transfer env localPath dirname file w) as [o1 w1] eqn:Hfile.
    specialize (IH w1). cbv zeta in IH.
    destruct (promiseAllLimit1 files (transfer env localPath dirname) w1)
      as [o2 w2] eqn:Hrest.
    cbn [snd] in IH. destruct IH as [Hwrites Htable].
    assert (Hstep :
              localWrites w1
              = localWrites w
                ++ (match getObjectAnswer env (path file) with
                    | inr _ => [downloadTarget localPath dirname (path file)]
                    | inl _ => []
                    end)
              /\ table w1 = table w).
    { unfold transfer, bind, s3_getObject, remote, fs_createWriteStream in Hfile.
      destruct (getObjectAnswer env (path file)) as [e|result].
      - injection Hfile as _ <-. cbn. now rewrite app_nil_r.
      - destruct (streamError result); injection Hfile as _ <-; cbn; auto. }
    destruct Hstep as [Hwrites1 Htable1].
    assert (Hafter : snd (match o1 with
                          | Returned _ => (o2, w2)
                          | Thrown e => (Thrown e, w2)
                          end) = w2) by (destruct o1; reflexivity).
    cbv zeta. rewrite Hafter, Hwrites, Hwrites1, Htable, Htable1.
    split; [|reflexivity].
    rewrite <- app_assoc. f_equal.
    destruct (getObjectAnswer env (path file)); reflexivity.
Qed.

(** C9. When the requested ids are validated, [downloadObjects] opens one
    local file per collected file that the remote adapter serves, in the
    order of collection and nothing else.  For each of them whose virtual
    path starts with the requested dirname, the file opened is the
    destination root joined with the pieces of the path once that prefix is
    stripped -- the code replaces the first occurrence of dirname, which is
    then the prefix --, so the directories below the prefix are kept as
    segments of the target.  The collected files are FILE rows of the
    index. *)
Theorem download_target_strips_dirname
    (localPath dirname : string) (ids : list Z) (w : World) :
  List.length (select typeValue (byIds ids) (table w)) = List.length ids ->
  let files :=
    flat_map (expandFiles (table w)) (select typeValue (byIds ids) (table w)) in
  let served :=
    filter (fun file =>
              match getObjectAnswer env (path file) with
              | inr _ => true
              | inl _ => false
              end) files in
  (forall file, In file files -> In file (table w) /\ type file = FILE)
  /\ exists targets : list string,
       localWrites (snd (downloadObjects typeValue env localPath dirname ids w))
       = localWrites w ++ targets
       /\ Forall2
            (fun file target =>
               target
               = NodePath.join
                   (localPath
                    :: JsString.split NodePath.sep
                         (JsString.replace dirname EmptyString (path file)))
               /\ (String.prefix dirname (path file) = true ->
                   target
                   = NodePath.join
                       (localPath
                        :: JsString.split "/"%char
                             (Reference.stripPrefix dirname (path file)))))
            served targets.
Proof.
  intros Hvalid files served. split.
  - intros file Hin. apply in_files in Hin as [[Hrow _] Hfile]. auto.
  - exists (map (fun file => downloadTarget localPath dirname (path file))
              served).
    split.
    + unfold downloadObjects, bind, findAll. cbn [fst snd].
      apply Nat.eqb_eq in Hvalid. rewrite Hvalid. cbn [negb].
      unfold ret at 1. rewrite collectFiles_run. cbn [app]. fold files.
      apply transfers_run.
    + clear. induction served as [|file served IH]; cbn [map]; constructor.
      * split; [reflexivity|]. apply downloadTarget_prefixed.
      * exact IH.
Qed.

End Download.

Lemma download_target_strips_dirname_witness :
  localWrites
    (snd (downloadObjects Sample.folderFirst Sample.reliable
            "/home/me/dl" "a" [2%Z] Sample.tree))
  = ["/home/me/dl/b/x.txt"].
Proof.
  destruct (download_target_strips_dirname Sample.folderFirst Sample.reliable
              "/home/me/dl" "a" [2%Z] Sample.tree eq_refl)
    as [_ [targets [Hwrites Htargets]]].
  rewrite Hwrites. cbn in Htargets.
  inversion Htargets as [|file target served targets' [_ Htarget] Hrest];
    subst.
  inversion Hrest; subst.
  rewrite (Htarget eq_refl). reflexivity.
Defined.

Example downloadObjects_tree :
  localWrites
    (snd (downloadObjects Sample.folderFirst Sample.reliable
            "/home/me/dl" "a" [2%Z] Sample.tree))
  = ["/home/me/dl/b/x.txt"].
Proof. reflexivity. Qed.

(** * Further properties of the handlers *)

(** ** Listing: cursor and order *)

Section ListingMore.

Variable typeValue : OBJECT_TYPE -> Z.

Lemma findOne_by_id (a : Z) (w : World) :
  findOne typeValue (IdEq a) w
  = (Returned (find (fun o => Z.eqb (id o) a) (table w)), w).
Proof. reflexivity. Qed.

(** X1. A listing whose cursor id is truthy but has no row throws the
    NotFoundError that names the cursor, before any query; nothing
    changes. *)
Theorem getObjects_missing_cursor
    (requested : string) (keyword : option string) (after : option Z)
    (pageLimit : nat) (w : World) (a : Z) :
  truthyAfter after = Some a ->
  resolves (table w) a = false ->
  getObjects typeValue requested keyword after pageLimit w
  = (Thrown (NotFoundError (MsgNotFoundObject a)), w).
Proof.
  intros Hafter Hmissing.
  unfold getObjects, bind, afterConditionsOf. rewrite Hafter.
  unfold bind. rewrite findOne_by_id.
  unfold resolves in Hmissing. apply find_none_existsb in Hmissing.
  now rewrite Hmissing.
Qed.

(** X2. Listing reads the index and nothing else: whether it returns a page
    or throws, the rows, the id counter, the calls to the remote adapter and
    the local files are those it started from. *)
Theorem getObjects_read_only
    (requested : string) (keyword : option string) (after : option Z)
    (pageLimit : nat) (w : World) :
  snd (getObjects typeValue requested keyword after pageLimit w) = w.
Proof.
  unfold getObjects, bind.
  pose proof (afterConditionsOf_pure typeValue after w) as Hpure.
  destruct (afterConditionsOf typeValue after w) as [[afterConditions|e] w1];
    cbn [snd] in *; subst w1; reflexivity.
Qed.

(** The conditions pushed for a cursor are what [afterConditionsOf] returns
    when the cursor resolves. *)
Lemma afterConditionsOf_cursor (after : option Z) (a : Z) (w : World)
    (afterConditions : list Where) :
  truthyAfter after = Some a ->
  fst (afterConditionsOf typeValue after w) = Returned afterConditions ->
  exists cursor,
    In cursor (table w) /\ id cursor = a
    /\ afterConditions = cursorConditions cursor.
Proof.
  intros Hafter. unfold afterConditionsOf. rewrite Hafter.
  unfold bind. rewrite findOne_by_id.
  destruct (find _ (table w)) as [cursor|] eqn:Hfind; [|discriminate].
  apply find_some in Hfind as [Hin Hid]. apply Z.eqb_eq in Hid.
  cbn. intros [= <-]. eauto.
Qed.

(** X3. Every row of a page listed after a cursor comes strictly after the
    cursor row in the order (type, basename, id): a page never repeats the
    cursor row nor goes back before it. *)
Theorem getObjects_after_cursor
    (requested : string) (keyword : option string) (after : option Z)
    (pageLimit : nat) (w : World) (page : Page) (a : Z) :
  truthyAfter after = Some a ->
  getObjects typeValue requested keyword after pageLimit w = (Returned page, w) ->
  exists cursor,
    In cursor (table w) /\ id cursor = a
    /\ (forall o, In o (items page) ->
          compareOrder typeValue listingOrder cursor o = Lt)
    /\ ~ In cursor (items page).
Proof.
  intros Hafter Hrun.
  destruct (getObjects_items typeValue _ _ _ _ _ _ _ Hrun)
    as [afterConditions [Hconditions Hitems]].
  destruct (afterConditionsOf_cursor _ _ _ _ Hafter Hconditions)
    as [cursor [Hin [Hid ->]]].
  assert (Hlater : forall o, In o (items page) ->
                     compareOrder typeValue listingOrder cursor o = Lt).
  { intros o Ho. destruct (Hitems o Ho) as [_ Hadmitted].
    rewrite listingWhere_matches in Hadmitted.
    apply andb_true_iff in Hadmitted as [Hadmitted _].
    apply andb_true_iff in Hadmitted as [_ Hresumes].
    unfold resumes in Hresumes. cbn [nonEmpty cursorConditions negb orb] in Hresumes.
    apply cursorConditions_sound in Hresumes.
    rewrite resumeAfter_order in Hresumes.
    destruct (compareOrder typeValue listingOrder cursor o);
      [discriminate | reflexivity | discriminate]. }
  exists cursor. repeat split; auto.
  intros Hself. specialize (Hlater cursor Hself).
  pose proof (compareOrder_antisym typeValue listingOrder cursor cursor) as Hopp.
  rewrite Hlater in Hopp. discriminate.
Qed.

(** X5. On the rows whose type is not greater than the cursor's, the cursor
    conditions of the code and the listing order agree: a listing whose rows
    all have the cursor's type resumes exactly where it stopped. *)
Theorem cursor_exact_up_to_type (cursor o : ObjectModel) :
  (typeValue (type o) <= typeValue (type cursor))%Z ->
  existsb (fun c => matches typeValue c o) (cursorConditions cursor)
  = match compareOrder typeValue listingOrder cursor o with
    | Lt => true
    | _ => false
    end.
Proof.
  intros Htype.
  rewrite <- resumeAfter_order, cursorConditions_admit.
  unfold Reference.resumeAfter.
  destruct (Z.leb_spec (typeValue (type cursor)) (typeValue (type o)))
    as [Hle|Hlt].
  - assert (Heq : typeValue (type o) = typeValue (type cursor)) by lia.
    rewrite Heq, Z.ltb_irrefl, Z.eqb_refl. reflexivity.
  - assert (Hltb : Z.ltb (typeValue (type cursor)) (typeValue (type o)) = false)
      by (apply Z.ltb_ge; lia).
    assert (Heqb : Z.eqb (typeValue (type o)) (typeValue (type cursor)) = false)
      by (apply Z.eqb_neq; lia).
    now rewrite Hltb, Heqb.
Qed.

End ListingMore.

Lemma getObjects_missing_cursor_witness :
  getObjects Sample.folderFirst "" None (Some 9%Z) 2 Sample.tree
  = (Thrown (NotFoundError (MsgNotFoundObject 9)), Sample.tree).
Proof.
  exact (getObjects_missing_cursor Sample.folderFirst "" None (Some 9%Z) 2
           Sample.tree 9%Z eq_refl eq_refl).
Defined.

Lemma getObjects_after_cursor_witness :
  exists cursor,
    In cursor (table Sample.tree) /\ id cursor = 1%Z
    /\ (forall o,
          In o [Sample.row 5 FOLDER "z/"; Sample.row 4 FILE "y.txt"] ->
          compareOrder Sample.folderFirst listingOrder cursor o = Lt)
    /\ (In cursor [Sample.row 5 FOLDER "z/"; Sample.row 4 FILE "y.txt"]
        -> False).
Proof.
  exact (getObjects_after_cursor Sample.folderFirst "" None (Some 1%Z) 2
           Sample.tree
           {| hasNextPage := false;
              items := [Sample.row 5 FOLDER "z/"; Sample.row 4 FILE "y.txt"] |}
           1%Z eq_refl eq_refl).
Defined.

Lemma cursor_exact_up_to_type_witness :
  existsb (fun c => matches Sample.folderFirst c (Sample.row 4 FILE "y.txt"))
    (cursorConditions (Sample.row 3 FILE "b.txt"))
  = true.
Proof.
  exact (cursor_exact_up_to_type Sample.folderFirst
           (Sample.row 3 FILE "b.txt") (Sample.row 4 FILE "y.txt")
           ltac:(cbn; lia)).
Defined.

Lemma getObjects_sorted_witness :
  Sorted (fun a b => orderLeb Sample.folderFirst listingOrder a b = true)
    [Sample.row 1 FOLDER "a/"; Sample.row 5 FOLDER "z/";
     Sample.row 4 FILE "y.txt"].
Proof.
  exact (getObjects_sorted Sample.folderFirst "" None None 5
           Sample.tree Sample.tree
           {| hasNextPage := false;
              items := [Sample.row 1 FOLDER "a/"; Sample.row 5 FOLDER "z/";
                        Sample.row 4 FILE "y.txt"] |}
           eq_refl).
Defined.

(** ** Creation: what succeeds and what is left behind *)

Section CreationMore.

Variable typeValue : OBJECT_TYPE -> Z.
Variable env : Env.

(** The run of [createFolder] once the parent check passed and the path is
    free: the row is inserted, then the marker is put, whatever the remote
    adapter answers. *)
Lemma createFolder_inserted_run (dirname basename : string) (w : World) :
  let p := folderPath dirname basename in
  let saved :=
    newRow (nextId w)
      {| draftType := FOLDER; draftPath := p; draftStorageClass := None |} in
  parentFound p (table w) = true ->
  pathTaken p (table w) = false ->
  createFolder typeValue env dirname basename w
  = (match putObjectAnswer env p with
     | Some e => Thrown e
     | None => Returned saved
     end,
     {| table := table w ++ [saved];
        nextId := nextId w + 1;
        remoteCalls := remoteCalls w ++ [PutObject p];
        localWrites := localWrites w |}).
Proof.
  intros p saved Hparent Hfree.
  unfold createFolder, bind. cbn [draftPath]. fold p.
  rewrite requireParent_run, Hparent, saveOrConflict_run.
  cbn [draftPath]. rewrite Hfree. fold saved.
  unfold s3_putObject, remote, unitAnswer, ret. cbn [path saved newRow draftPath].
  destruct (putObjectAnswer env p); reflexivity.
Qed.

(** X6. A [createFolder] whose parent exists and whose path is free, and
    whose marker the remote adapter accepts, returns the new FOLDER row: it
    has the next id and the candidate path, it is the one row added to the
    index, and the one remote call is the [putObject] of that path. *)
Theorem createFolder_success (dirname basename : string) (w : World) :
  let p := folderPath dirname basename in
  parentFound p (table w) = true ->
  pathTaken p (table w) = false ->
  putObjectAnswer env p = None ->
  exists created w',
    createFolder typeValue env dirname basename w = (Returned created, w')
    /\ id created = nextId w /\ type created = FOLDER /\ path created = p
    /\ table w' = table w ++ [created]
    /\ remoteCalls w' = remoteCalls w ++ [PutObject p].
Proof.
  intros p Hparent Hfree Haccepted.
  pose proof (createFolder_inserted_run dirname basename w Hparent Hfree)
    as Hrun.
  cbv zeta in Hrun. fold p in Hrun. rewrite Haccepted in Hrun.
  eexists. eexists. split; [exact Hrun|]. cbn. auto.
Qed.

(** X7. [createFolder] has no compensating action: when the remote adapter
    refuses the marker, the error is thrown and the FOLDER row inserted just
    before stays in the index, so that the same request then conflicts. *)
Theorem createFolder_keeps_row_when_marker_fails
    (dirname basename : string) (w : World) (e : Error) :
  let p := folderPath dirname basename in
  parentFound p (table w) = true ->
  pathTaken p (table w) = false ->
  putObjectAnswer env p = Some e ->
  exists w',
    createFolder typeValue env dirname basename w = (Thrown e, w')
    /\ hasFolder p (table w') = true
    /\ remoteCalls w' = remoteCalls w ++ [PutObject p]
    /\ createFolder typeValue env dirname basename w'
       = (Thrown (ConflictError (UniqueConstraintError ["path"])
                    SHOW_OBJECT_DUPLICATED_ALERT p), w').
Proof.
  intros p Hparent Hfree Hrefused.
  pose proof (createFolder_inserted_run dirname basename w Hparent Hfree)
    as Hrun.
  cbv zeta in Hrun. fold p in Hrun. rewrite Hrefused in Hrun.
  eexists. split; [exact Hrun|]. cbn [table remoteCalls].
  split; [|split; [reflexivity|]].
  - unfold hasFolder. rewrite existsb_app. cbn.
    rewrite String.eqb_refl. apply orb_true_r.
  - apply (create_conflict_checked typeValue env
             (CreateFolder dirname basename)); cbn [candidatePath table]; fold p.
    + now apply parentFound_app.
    + unfold pathTaken. rewrite existsb_app. cbn.
      rewrite String.eqb_refl. apply orb_true_r.
Qed.

(** X8. A [createFile] whose parent exists and whose path is free, and all
    of whose steps succeed, returns the FILE row with the size and the date
    that [headObject] reported; that row is the one row added to the index,
    and the remote calls are the upload -- with the looked-up content type,
    or [application/octet-stream] -- followed by the [headObject]. *)
Theorem createFile_success
    (localPath dirname : string) (w : World) (objectHeaders : Headers) :
  let basename := NodePath.basename localPath in
  let p := filePath dirname basename in
  idsBelow (nextId w) (table w) = true ->
  parentFound p (table w) = true ->
  pathTaken p (table w) = false ->
  uploadAnswer env p = None ->
  headObjectAnswer env p = inr objectHeaders ->
  (forall o, updateAnswer env o = None) ->
  exists created w',
    createFile typeValue env localPath dirname w = (Returned created, w')
    /\ id created = nextId w /\ type created = FILE /\ path created = p
    /\ size created = Some (ContentLength objectHeaders)
    /\ lastModified created = Some (LastModified objectHeaders)
    /\ table w' = table w ++ [created]
    /\ remoteCalls w'
       = remoteCalls w
         ++ [Upload p (match mimeLookup env basename with
                       | Some contentType => contentType
                       | None => "application/octet-stream"
                       end);
             HeadObject p].
Proof.
  intros basename p Hbelow Hparent Hfree Hupload Hhead Hupdate.
  set (saved := newRow (nextId w)
                  {| draftType := FILE; draftPath := p;
                     draftStorageClass := Some STANDARD |}).
  exists (withHeaders saved objectHeaders).
  eexists. split.
  - unfold createFile, bind. cbn [draftPath]. fold basename. fold p.
    rewrite requireParent_run, Hparent, saveOrConflict_run.
    cbn [draftPath]. rewrite Hfree. fold saved.
    unfold tryCatch, bind, s3_upload, s3_headObject, remote, unitAnswer,
      update, ret.
    change (path saved) with p. rewrite Hupload, Hhead, Hupdate.
    cbn [table nextId remoteCalls localWrites]. reflexivity.
  - cbn [table remoteCalls id type path size lastModified withHeaders saved
           newRow draftType draftPath].
    repeat split; try reflexivity.
    + rewrite map_app. cbn [map id withHeaders newRow]. rewrite Z.eqb_refl.
      f_equal.
      apply (update_fresh (table w) (withHeaders saved objectHeaders)).
      exact Hbelow.
    + unfold contentTypeOf. rewrite <- app_assoc. reflexivity.
Qed.

End CreationMore.

(** ** Bulk deletion: every outcome *)

Section DeletionMore.

Variable typeValue : OBJECT_TYPE -> Z.
Variable env : Env.

(** The run of [deleteObjects] on validated ids, whatever the remote
    adapter answers: the file batch is destroyed even when its remote
    deletion is refused, and the folder batch is reached only when it was
    accepted. *)
Lemma deleteObjects_every_run (ids : list Z) (w : World) :
  allResolve (table w) ids = true ->
  let objects := select typeValue (byIds ids) (table w) in
  let files := flat_map (expandFiles (table w)) objects in
  let folders := flat_map (expandFolders (table w)) objects in
  let folderPaths := stableSort deeperFirst (map path folders) in
  let afterFiles := afterBatch files (map path files) w in
  deleteObjects typeValue env ids w
  = match (if nonEmpty files
           then deleteObjectsAnswer env (map path files) else None) with
    | Some e => (Thrown e, afterFiles)
    | None =>
        (match (if nonEmpty folders
                then deleteObjectsAnswer env folderPaths else None) with
         | Some e => Thrown e
         | None => Returned tt
         end,
         afterBatch folders folderPaths afterFiles)
    end.
Proof.
  intros Hall objects files folders folderPaths afterFiles.
  unfold deleteObjects, bind, findAll. cbn [fst snd].
  assert (Hvalid :
            (if negb (Nat.eqb
                        (List.length (select typeValue (byIds ids) (table w)))
                        (List.length ids))
             then
               forEach ids
                 (fun v =>
                    if negb (includes
                               (map id (select typeValue (byIds ids) (table w)))
                               v)
                    then throw (NotFoundError (MsgNotFoundQuoted v))
                    else ret tt)
             else ret tt) w = (Returned tt, w)).
  { destruct (negb _); [now apply validation_passes | reflexivity]. }
  rewrite Hvalid, collectAll_run. cbn [app fst snd].
  fold objects. fold files. fold folders. fold folderPaths.
  unfold afterFiles, afterBatch.
  destruct (nonEmpty files); destruct (nonEmpty folders);
    unfold promiseAll2, s3_deleteObjects, remote, unitAnswer, destroy, ret;
    repeat match goal with
           | |- context [deleteObjectsAnswer env ?paths] =>
               destruct (deleteObjectsAnswer env paths)
           end;
    cbn; reflexivity.
Qed.

(** X9. When the remote adapter refuses the deletion of the file batch, the
    error is thrown, yet the file rows are already destroyed in the index:
    there is no rollback.  The folder batch is not reached: no second remote
    call is made and every FOLDER row stays. *)
Theorem deleteObjects_file_batch_refused
    (ids : list Z) (w : World) (e : Error) :
  allResolve (table w) ids = true ->
  let files :=
    flat_map (expandFiles (table w)) (select typeValue (byIds ids) (table w)) in
  nonEmpty files = true ->
  deleteObjectsAnswer env (map path files) = Some e ->
  exists w',
    deleteObjects typeValue env ids w = (Thrown e, w')
    /\ remoteCalls w' = remoteCalls w ++ [DeleteObjects (map path files)]
    /\ (forall o, In o files -> ~ In o (table w'))
    /\ (primaryKey (table w) = true ->
        forall o, In o (table w) -> type o = FOLDER -> In o (table w')).
Proof.
  intros Hall files Hsome Hrefused.
  pose proof (deleteObjects_every_run ids w Hall) as Hrun.
  cbv zeta in Hrun. fold files in Hrun.
  rewrite Hsome, Hrefused in Hrun.
  eexists. split; [exact Hrun|]. split; [|split].
  - rewrite afterBatch_calls, Hsome. reflexivity.
  - intros o Hin. now apply afterBatch_destroys.
  - intros Hkey o Hin Hfolder. apply afterBatch_keeps; [exact Hin|].
    intros b Hb Hid. apply in_files in Hb as [[Hrow _] Hfile].
    assert (b = o) as -> by (apply (primaryKey_injective (table w)); auto).
    congruence.
Qed.

Lemma resolves_false_after (rows : list ObjectModel) (v : Z) :
  (forall o, In o rows -> id o <> v) -> resolves rows v = false.
Proof.
  intros Hnone. unfold resolves.
  destruct (existsb _ rows) eqn:Hex; [|reflexivity].
  apply existsb_exists in Hex as [o [Hin Hid]]. apply Z.eqb_eq in Hid.
  exfalso. now apply (Hnone o).
Qed.

(** After both batches, no remaining row has a requested id. *)
Lemma requested_ids_gone (ids : list Z) (w : World) (v : Z) :
  allResolve (table w) ids = true ->
  In v ids ->
  let objects := select typeValue (byIds ids) (table w) in
  let files := flat_map (expandFiles (table w)) objects in
  let folders := flat_map (expandFolders (table w)) objects in
  forall paths paths',
    resolves (table (afterBatch folders paths'
                       (afterBatch files paths w))) v = false.
Proof.
  intros Hall Hin objects files folders paths paths'.
  apply resolves_false_after. intros o Ho Hid.
  unfold allResolve in Hall. rewrite forallb_forall in Hall.
  pose proof (Hall v Hin) as Hres. unfold resolves in Hres.
  apply existsb_exists in Hres as [x [Hx Hxid]]. apply Z.eqb_eq in Hxid.
  assert (Hbatch : In x files \/ In x folders).
  { destruct (type x) eqn:Htype.
    - right. apply in_folders. split; [|exact Htype].
      split; [exact Hx|]. exists x. repeat split; auto; [congruence|].
      right. split; [exact Htype | apply prefix_refl].
    - left. apply in_files. split; [|exact Htype].
      split; [exact Hx|]. exists x. repeat split; auto; congruence. }
  destruct Hbatch as [Hfile|Hfolder].
  - apply afterBatch_incl in Ho.
    unfold afterBatch in Ho. rewrite (nonEmpty_in _ _ Hfile) in Ho.
    cbn [table] in Ho. apply filter_In in Ho as [_ Hkept].
    apply negb_true_iff in Hkept.
    assert (Hex : existsb (Z.eqb (id o)) (map id files) = true).
    { apply existsb_exists. exists (id x).
      split; [now apply in_map | apply Z.eqb_eq; congruence]. }
    congruence.
  - unfold afterBatch at 1 in Ho. rewrite (nonEmpty_in _ _ Hfolder) in Ho.
    cbn [table] in Ho. apply filter_In in Ho as [_ Hkept].
    apply negb_true_iff in Hkept.
    assert (Hex : existsb (Z.eqb (id o)) (map id folders) = true).
    { apply existsb_exists. exists (id x).
      split; [now apply in_map | apply Z.eqb_eq; congruence]. }
    congruence.
Qed.

(** X10. Deleting is not idempotent: after a [deleteObjects] that returned,
    none of the requested ids has a row any more, so repeating the same
    (non-empty) request throws the NotFoundError naming its first id and
    changes nothing. *)
Theorem deleteObjects_twice (ids : list Z) (w w' : World) (first : Z)
    (others : list Z) :
  ids = first :: others ->
  allResolve (table w) ids = true ->
  deleteObjects typeValue env ids w = (Returned tt, w') ->
  (forall v, In v ids -> resolves (table w') v = false)
  /\ deleteObjects typeValue env ids w'
     = (Thrown (NotFoundError (MsgNotFoundQuoted first)), w').
Proof.
  intros Hids Hall Hrun.
  assert (Hgone : forall v, In v ids -> resolves (table w') v = false).
  { intros v Hin.
    pose proof (deleteObjects_every_run ids w Hall) as Hevery.
    cbv zeta in Hevery. rewrite Hrun in Hevery.
    destruct (if nonEmpty _ then deleteObjectsAnswer env _ else None);
      [discriminate|].
    injection Hevery as _ ->.
    now apply requested_ids_gone. }
  split; [exact Hgone|].
  assert (Hempty : select typeValue (byIds ids) (table w') = []).
  { rewrite select_byIds.
    destruct (filter _ (table w')) as [|o rest] eqn:Hfilter; [reflexivity|].
    assert (Ho : In o (filter (fun o => existsb (Z.eqb (id o)) ids) (table w')))
      by (rewrite Hfilter; now left).
    apply filter_In in Ho as [Ho Hlisted].
    apply existsb_exists in Hlisted as [v [Hv Heq]]. apply Z.eqb_eq in Heq.
    specialize (Hgone v Hv). unfold resolves in Hgone.
    assert (Hex : existsb (fun o => Z.eqb (id o) v) (table w') = true).
    { apply existsb_exists. exists o. split; [exact Ho|]. now apply Z.eqb_eq. }
    congruence. }
  unfold deleteObjects, bind, findAll. cbn [fst snd].
  rewrite Hempty. subst ids. cbn [List.length Nat.eqb negb map].
  rewrite forEach_missing. cbn [find includes existsb negb]. reflexivity.
Qed.

End DeletionMore.

(** ** Bulk deletion keeps the index well formed *)

Lemma prefix_app (a b : string) : String.prefix a (a ++ b) = true.
Proof.
  induction a as [|c a IH]; cbn; [now destruct b|].
  destruct (ascii_dec c c); [exact IH | contradiction].
Qed.

Lemma prefix_trans (a b c : string) :
  String.prefix a b = true -> String.prefix b c = true ->
  String.prefix a c = true.
Proof.
  revert b c. induction a as [|x a IH]; intros b c Hab Hbc.
  - now destruct c.
  - destruct b as [|y b]; [discriminate|].
    destruct c as [|z c]; [discriminate|].
    cbn in *.
    destruct (ascii_dec x y) as [->|]; [|discriminate].
    destruct (ascii_dec y z) as [->|]; [|discriminate].
    now apply (IH b c).
Qed.

Lemma likePrefix_trans (a b c : string) :
  Utils.likePrefix a b = true -> Utils.likePrefix b c = true ->
  Utils.likePrefix a c = true.
Proof. unfold Utils.likePrefix. apply prefix_trans. Qed.

Lemma string_of_list_ascii_app (l1 l2 : list ascii) :
  string_of_list_ascii (l1 ++ l2)
  = (string_of_list_ascii l1 ++ string_of_list_ascii l2)%string.
Proof. induction l1 as [|c l1 IH]; cbn; [reflexivity | now rewrite IH]. Qed.

(** A path is its stripped form, possibly followed by one slash. *)
Lemma stripTrailingSlash_prefix (p : string) :
  String.prefix (Path.stripTrailingSlash p) p = true.
Proof.
  unfold Path.stripTrailingSlash.
  destruct (rev (list_ascii_of_string p)) as [|c before] eqn:Hrev;
    [apply prefix_refl|].
  destruct (Ascii.eqb c "/"); [|apply prefix_refl].
  assert (Hp : p = (string_of_list_ascii (rev before)
                    ++ string_of_list_ascii [c])%string).
  { rewrite <- string_of_list_ascii_app.
    change (rev before ++ [c]) with (rev (c :: before)).
    now rewrite <- Hrev, rev_involutive, string_of_list_ascii_of_string. }
  rewrite Hp. apply prefix_app.
Qed.

Lemma concat_app_last (sep : string) (pieces : list string) (piece : string) :
  pieces <> [] ->
  String.concat sep (pieces ++ [piece])
  = (String.concat sep pieces ++ sep ++ piece)%string.
Proof.
  induction pieces as [|first rest IH]; [contradiction|]. intros _.
  destruct rest as [|next rest]; [reflexivity|].
  change ((first :: next :: rest) ++ [piece])
    with (first :: (next :: rest) ++ [piece]).
  change ((next :: rest) ++ [piece]) with (next :: rest ++ [piece]) at 1.
  rewrite concat_cons.
  change (next :: rest ++ [piece]) with ((next :: rest) ++ [piece]).
  rewrite IH by discriminate.
  rewrite concat_cons, !append_assoc. reflexivity.
Qed.

(** The derived dirname of a path below the root, followed by a slash,
    begins the path. *)
Lemma dirname_prefix (p : string) :
  JsString.truthy (Path.dirname p) = true ->
  String.prefix (Path.dirname p ++ "/") p = true.
Proof.
  intros Hbelow.
  apply prefix_trans with (Path.stripTrailingSlash p);
    [|apply stripTrailingSlash_prefix].
  unfold Path.dirname in *.
  set (s := Path.stripTrailingSlash p) in *.
  pose proof (join_split s) as Hjoin.
  destruct (exists_last (split_nonempty "/"%char s)) as [front [final Hsplit]].
  rewrite Hsplit in *. rewrite removelast_last in *.
  destruct front as [|first front].
  { discriminate. }
  unfold JsString.join in *.
  rewrite concat_app_last in Hjoin by discriminate.
  rewrite <- Hjoin. rewrite <- append_assoc. apply prefix_app.
Qed.

Section DeletionInvariant.

Variable typeValue : OBJECT_TYPE -> Z.
Variable env : Env.

Lemma primaryKey_filter (keep : ObjectModel -> bool) (rows : list ObjectModel) :
  primaryKey rows = true -> primaryKey (filter keep rows) = true.
Proof.
  unfold primaryKey. induction rows as [|o rows IH]; [reflexivity|].
  cbn. intros Hkey. apply andb_true_iff in Hkey as [Hfresh Hrest].
  destruct (keep o); cbn; [|auto].
  apply andb_true_iff. split; [|auto].
  apply negb_true_iff. apply negb_true_iff in Hfresh.
  destruct (existsb _ (map id (filter keep rows))) eqn:Hex; [|reflexivity].
  apply existsb_exists in Hex as [v [Hv Heq]].
  apply in_map_iff in Hv as [o' [Hid Ho']]. apply filter_In in Ho' as [Ho' _].
  assert (Hagain : existsb (Z.eqb (id o)) (map id rows) = true).
  { apply existsb_exists. exists v. split; [|exact Heq].
    apply in_map_iff. eauto. }
  congruence.
Qed.

Lemma idsBelow_filter (next : Z) (keep : ObjectModel -> bool)
    (rows : list ObjectModel) :
  idsBelow next rows = true -> idsBelow next (filter keep rows) = true.
Proof.
  unfold idsBelow. rewrite !forallb_forall. intros Hbelow o Ho.
  apply filter_In in Ho as [Ho _]. auto.
Qed.

Lemma hasFolder_in (p : string) (rows : list ObjectModel) :
  hasFolder p rows = true
  <-> exists f, In f rows /\ type f = FOLDER /\ path f = p.
Proof.
  unfold hasFolder. rewrite existsb_exists. split.
  - intros [f [Hin Hf]]. apply andb_true_iff in Hf as [Htype Hpath].
    apply OBJECT_TYPE_eqb_eq in Htype. apply String.eqb_eq in Hpath. eauto.
  - intros [f [Hin [Htype Hpath]]]. exists f. split; [exact Hin|].
    apply andb_true_iff. split;
      [now apply OBJECT_TYPE_eqb_eq | now apply String.eqb_eq].
Qed.

(** Once the rows collected by a deletion are destroyed -- the files, or
    the files and the folders --, every remaining row still has its parent
    folder. *)
Lemma parentsExist_after (ids : list Z) (w : World)
    (paths paths' : list string) (withFolders : bool) :
  primaryKey (table w) = true ->
  parentsExist (table w) = true ->
  let objects := select typeValue (byIds ids) (table w) in
  let files := flat_map (expandFiles (table w)) objects in
  let folders := flat_map (expandFolders (table w)) objects in
  let afterFiles := afterBatch files paths w in
  parentsExist
    (table (if withFolders then afterBatch folders paths' afterFiles
            else afterFiles)) = true.
Proof.
  intros Hkey Hparents objects files folders afterFiles.
  set (final := if withFolders then afterBatch folders paths' afterFiles
                else afterFiles).
  assert (Hincl : forall o, In o (table final) -> In o (table w)).
  { intros o Ho. unfold final in Ho. destruct withFolders.
    - now apply afterBatch_incl, afterBatch_incl in Ho.
    - now apply afterBatch_incl in Ho. }
  assert (Hkeeps : forall o, In o (table w) ->
                     ~ In o files -> (withFolders = true -> ~ In o folders) ->
                     In o (table final)).
  { intros o Ho Hnofile Hnofolder.
    assert (Hafter : In o (table afterFiles)).
    { apply afterBatch_keeps; [exact Ho|].
      intros b Hb Hid. apply Hnofile.
      assert (b = o) as <-; [|exact Hb].
      apply (primaryKey_injective (table w)); auto.
      apply in_files in Hb. apply Hb. }
    unfold final. destruct withFolders; [|exact Hafter].
    apply afterBatch_keeps; [exact Hafter|].
    intros b Hb Hid. apply (Hnofolder eq_refl).
    assert (b = o) as <-; [|exact Hb].
    apply (primaryKey_injective (table w)); auto.
    apply in_folders in Hb. apply Hb. }
  assert (Hgone : forall o, In o (table final) ->
                    ~ In o files /\ (withFolders = true -> ~ In o folders)).
  { intros o Ho. split.
    - intros Hfile. unfold final in Ho. destruct withFolders.
      + apply afterBatch_incl in Ho. revert Ho. now apply afterBatch_destroys.
      + revert Ho. now apply afterBatch_destroys.
    - intros -> Hfolder. unfold final in Ho.
      revert Ho. now apply afterBatch_destroys. }
  unfold parentsExist in *. rewrite forallb_forall in *.
  intros r Hr. pose proof (Hincl r Hr) as Hr0.
  specialize (Hparents r Hr0). unfold parentFound in *.
  apply orb_true_iff in Hparents as [Hroot|Hfolder]; [now rewrite Hroot|].
  destruct (JsString.truthy (Path.dirname (path r))) eqn:Hbelow;
    [|reflexivity].
  cbn [negb orb].
  apply hasFolder_in in Hfolder as [f [Hf [Htype Hpath]]].
  apply hasFolder_in. exists f. split; [|auto].
  apply Hkeeps; [exact Hf| |].
  - intros Hfile. apply in_files in Hfile as [_ Hfile]. congruence.
  - intros Hwith Hcollected.
    apply in_folders in Hcollected as [[_ [x [Hx [Hid Hcase]]]] _].
    destruct Hcase as [[Hfile ->] | [Hxfolder Hprefix]]; [congruence|].
    assert (Hbelowx : Utils.likePrefix (path x) (path r) = true).
    { apply likePrefix_trans with (path f); [exact Hprefix|].
      rewrite Hpath. now apply likePrefix_of_prefix, dirname_prefix. }
    assert (Hr_collected : collected (table w) ids r).
    { split; [exact Hr0|]. exists x. auto. }
    destruct (Hgone r Hr) as [Hnofile Hnofolder].
    destruct (type r) eqn:Hrtype.
    + apply (Hnofolder Hwith). apply in_folders. auto.
    + apply Hnofile. apply in_files. auto.
Qed.

(** X11. Deleting keeps the index well formed, whatever the outcome: ids
    stay below the counter and unique, and no remaining row is orphaned --
    a folder row is destroyed only together with every row below it, also
    when the remote adapter refuses a batch. *)
Theorem deleteObjects_preserves_invariant
    (ids : list Z) (w w' : World) (outcome : Outcome unit) :
  indexInvariant w = true ->
  deleteObjects typeValue env ids w = (outcome, w') ->
  indexInvariant w' = true.
Proof.
  unfold indexInvariant. rewrite !andb_true_iff.
  intros [[Hbelow Hkey] Hparents] Hrun.
  destruct (allResolve (table w) ids) eqn:Hall.
  - pose proof (deleteObjects_every_run typeValue env ids w Hall) as Hevery.
    cbv zeta in Hevery. rewrite Hrun in Hevery.
    pose proof (parentsExist_after ids w) as Hafter. cbv zeta in Hafter.
    assert (Hshape : forall batch paths v,
               idsBelow (nextId v) (table v) = true ->
               primaryKey (table v) = true ->
               idsBelow (nextId (afterBatch batch paths v))
                 (table (afterBatch batch paths v)) = true
               /\ primaryKey (table (afterBatch batch paths v)) = true).
    { intros batch paths v Hb Hk. unfold afterBatch.
      destruct (nonEmpty batch); cbn [table nextId]; [|auto].
      split; [now apply idsBelow_filter | now apply primaryKey_filter]. }
    set (files := flat_map (expandFiles (table w))
                    (select typeValue (byIds ids) (table w))) in *.
    set (folders := flat_map (expandFolders (table w))
                      (select typeValue (byIds ids) (table w))) in *.
    destruct (Hshape files (map path files) w Hbelow Hkey) as [Hb Hk].
    destruct (if nonEmpty files
              then deleteObjectsAnswer env (map path files) else None).
    + injection Hevery as _ ->.
      repeat split; auto.
      exact (Hafter (map path files) [] false Hkey Hparents).
    + injection Hevery as _ ->.
      destruct (Hshape folders (stableSort deeperFirst (map path folders))
                  _ Hb Hk) as [Hb' Hk'].
      repeat split; auto.
      exact (Hafter (map path files)
               (stableSort deeperFirst (map path folders)) true
               Hkey Hparents).
  - pose proof (fetched_fewer typeValue _ _ Hkey Hall) as Hfewer.
    destruct (find_missing typeValue _ _ Hall) as [missing [Hfind _]].
    unfold deleteObjects, bind, findAll in Hrun. cbn [fst snd] in Hrun.
    assert (Hdiffer :
              negb (Nat.eqb
                      (List.length (select typeValue (byIds ids) (table w)))
                      (List.length ids)) = true)
      by (apply negb_true_iff, Nat.eqb_neq; lia).
    rewrite Hdiffer, forEach_missing, Hfind in Hrun.
    injection Hrun as _ <-. auto.
Qed.

End DeletionInvariant.

Lemma createFolder_success_witness :
  exists created w',
    createFolder Sample.folderFirst Sample.reliable "a" "c" Sample.tree
      = (Returned created, w')
    /\ id created = 6%Z /\ type created = FOLDER /\ path created = "a/c/"
    /\ table w' = table Sample.tree ++ [created]
    /\ remoteCalls w' = [PutObject "a/c/"].
Proof.
  exact (createFolder_success Sample.folderFirst Sample.reliable "a" "c"
           Sample.tree eq_refl eq_refl eq_refl).
Defined.

Lemma createFolder_keeps_row_when_marker_fails_witness :
  exists w',
    createFolder Sample.folderFirst Fixture.markerRefused "a" "c" Sample.tree
      = (Thrown (RemoteError "AccessDenied"), w')
    /\ hasFolder "a/c/" (table w') = true
    /\ remoteCalls w' = [PutObject "a/c/"]
    /\ createFolder Sample.folderFirst Fixture.markerRefused "a" "c" w'
       = (Thrown (ConflictError (UniqueConstraintError ["path"])
                    SHOW_OBJECT_DUPLICATED_ALERT "a/c/"), w').
Proof.
  exact (createFolder_keeps_row_when_marker_fails Sample.folderFirst
           Fixture.markerRefused "a" "c" Sample.tree
           (RemoteError "AccessDenied") eq_refl eq_refl eq_refl).
Defined.

Lemma createFile_success_witness :
  exists created w',
    createFile Sample.folderFirst Fixture.pictures "/tmp/cat.jpg" "a"
      Sample.tree = (Returned created, w')
    /\ id created = 6%Z /\ type created = FILE /\ path created = "a/cat.jpg"
    /\ size created = Some 10%Z
    /\ lastModified created = Some 99%Z
    /\ table w' = table Sample.tree ++ [created]
    /\ remoteCalls w'
       = [Upload "a/cat.jpg" "image/jpeg"; HeadObject "a/cat.jpg"].
Proof.
  exact (createFile_success Sample.folderFirst Fixture.pictures
           "/tmp/cat.jpg" "a" Sample.tree
           {| ContentType := Some "image/jpeg"; ContentLength := 10;
              LastModified := 99 |}
           eq_refl eq_refl eq_refl eq_refl eq_refl (fun _ => eq_refl)).
Defined.

Lemma create_twice_conflict_witness :
  create Sample.folderFirst Sample.reliable (CreateFolder "" "docs")
    (snd (create Sample.folderFirst Sample.reliable (CreateFolder "" "docs")
            Sample.empty))
  = (Thrown (ConflictError (UniqueConstraintError ["path"])
               SHOW_OBJECT_DUPLICATED_ALERT "docs/"),
     snd (create Sample.folderFirst Sample.reliable (CreateFolder "" "docs")
            Sample.empty)).
Proof.
  exact (create_twice_conflict Sample.folderFirst Sample.reliable
           (CreateFolder "" "docs") Sample.empty _ _ eq_refl eq_refl).
Defined.

Lemma create_preserves_invariant_witness :
  indexInvariant
    (snd (create Sample.folderFirst Sample.uploadRefused
            (CreateFile "/tmp/n.txt" "a") Sample.tree)) = true.
Proof.
  exact (create_preserves_invariant Sample.folderFirst Sample.uploadRefused
           (CreateFile "/tmp/n.txt" "a") Sample.tree _ _ eq_refl eq_refl).
Defined.

Lemma deleteObjects_file_batch_refused_witness :
  exists w',
    deleteObjects Sample.folderFirst Fixture.deletionRefused [1%Z] Sample.tree
      = (Thrown (RemoteError "SlowDown"), w')
    /\ remoteCalls w' = [DeleteObjects ["a/b/x.txt"]]
    /\ map path (table w') = ["a/"; "a/b/"; "y.txt"; "z/"].
Proof.
  destruct (deleteObjects_file_batch_refused Sample.folderFirst
              Fixture.deletionRefused [1%Z] Sample.tree
              (RemoteError "SlowDown") eq_refl eq_refl eq_refl)
    as [w' [Hrun [Hcalls _]]].
  exists w'. split; [exact Hrun|]. split; [exact Hcalls|].
  change w' with (snd (Thrown (RemoteError "SlowDown") : Outcome unit, w')).
  rewrite <- Hrun. reflexivity.
Defined.

Lemma deleteObjects_twice_witness :
  (forall v, In v [1%Z; 4%Z] ->
     resolves
       (table (snd (deleteObjects Sample.folderFirst Sample.reliable
                      [1%Z; 4%Z] Sample.tree))) v = false)
  /\ fst (deleteObjects Sample.folderFirst Sample.reliable [1%Z; 4%Z]
            (snd (deleteObjects Sample.folderFirst Sample.reliable
                    [1%Z; 4%Z] Sample.tree)))
     = Thrown (NotFoundError (MsgNotFoundQuoted 1)).
Proof.
  destruct (deleteObjects_twice Sample.folderFirst Sample.reliable
              [1%Z; 4%Z] Sample.tree
              (snd (deleteObjects Sample.folderFirst Sample.reliable
                      [1%Z; 4%Z] Sample.tree))
              1%Z [4%Z] eq_refl eq_refl eq_refl) as [Hgone Hagain].
  split; [exact Hgone|]. now rewrite Hagain.
Defined.

Lemma deleteObjects_preserves_invariant_witness :
  indexInvariant
    (snd (deleteObjects Sample.folderFirst Fixture.deletionRefused [1%Z]
            Sample.tree)) = true.
Proof.
  exact (deleteObjects_preserves_invariant Sample.folderFirst
           Fixture.deletionRefused [1%Z] Sample.tree _ _ eq_refl eq_refl).
Defined.

(** ** Bulk requests: empty list, and what a download touches *)

Section BulkMore.

Variable typeValue : OBJECT_TYPE -> Z.
Variable env : Env.

Lemma select_no_id (rows : list ObjectModel) :
  select typeValue (byIds []) rows = [].
Proof. rewrite select_byIds. cbn [existsb]. apply filter_false. Qed.

(** X12. A bulk request that lists no id succeeds without doing anything:
    no row is read into a batch, no remote call is made, no file is
    opened. *)
Theorem bulk_without_ids (localPath dirname : string) (w : World) :
  deleteObjects typeValue env [] w = (Returned tt, w)
  /\ downloadObjects typeValue env localPath dirname [] w = (Returned tt, w).
Proof.
  split.
  - unfold deleteObjects, bind, findAll. cbn [fst snd].
    rewrite select_no_id. reflexivity.
  - unfold downloadObjects, bind, findAll. cbn [fst snd].
    rewrite select_no_id. reflexivity.
Qed.

(** The run of one transfer. *)
Lemma transfer_run (localPath dirname : string) (file : ObjectModel)
    (w : World) :
  transfer env localPath dirname file w
  = match getObjectAnswer env (path file) with
    | inl e =>
        (Thrown e,
         {| table := table w; nextId := nextId w;
            remoteCalls := remoteCalls w ++ [GetObject (path file)];
            localWrites := localWrites w |})
    | inr result =>
        (match streamError result with
         | Some e => Thrown e
         | None => Returned tt
         end,
         {| table := table w; nextId := nextId w;
            remoteCalls := remoteCalls w ++ [GetObject (path file)];
            localWrites :=
              localWrites w
              ++ [downloadTarget localPath dirname (path file)] |})
    end.
Proof.
  unfold transfer, bind, s3_getObject, remote, fs_createWriteStream.
  destruct (getObjectAnswer env (path file)) as [e|result]; [reflexivity|].
  destruct (streamError result); reflexivity.
Qed.

Lemma transfers_every_run (localPath dirname : string)
    (files : list ObjectModel) (w : World) :
  let result := promiseAllLimit1 files (transfer env localPath dirname) w in
  table (snd result) = table w
  /\ nextId (snd result) = nextId w
  /\ remoteCalls (snd result)
     = remoteCalls w ++ map (fun file => GetObject (path file)) files
  /\ (fst result = Returned tt <-> forallb (transferred env) files = true)
  /\ (forall e, fst result = Thrown e ->
        exists file, In file files /\ transferred env file = false).
Proof.
  revert w. induction files as [|file files IH]; intros w.
  - cbn. rewrite app_nil_r. repeat split; auto. discriminate.
  - cbn [promiseAllLimit1 map forallb].
    rewrite transfer_run.
    set (w1 := {| table := table w; nextId := nextId w;
                  remoteCalls := remoteCalls w ++ [GetObject (path file)];
                  localWrites := localWrites w |}).
    set (w2 := {| table := table w; nextId := nextId w;
                  remoteCalls := remoteCalls w ++ [GetObject (path file)];
                  localWrites :=
                    localWrites w
                    ++ [downloadTarget localPath dirname (path file)] |}).
    assert (Hfile : transferred env file
                    = match getObjectAnswer env (path file) with
                      | inr result =>
                          match streamError result with
                          | None => true
                          | Some _ => false
                          end
                      | inl _ => false
                      end) by reflexivity.
    destruct (getObjectAnswer env (path file)) as [e|answer].
    + specialize (IH w1). cbv zeta in IH.
      destruct (promiseAllLimit1 files (transfer env localPath dirname) w1)
        as [o rest].
      cbn [fst snd] in *. destruct IH as [Ht [Hn [Hc _]]].
      rewrite Ht, Hn, Hc, Hfile. cbn [table nextId remoteCalls w1 andb].
      rewrite <- app_assoc. repeat split; auto; try discriminate.
      intros e' _. exists file. split; [now left | exact Hfile].
    + specialize (IH w2). cbv zeta in IH.
      destruct (promiseAllLimit1 files (transfer env localPath dirname) w2)
        as [o rest].
      cbn [fst snd] in *. destruct IH as [Ht [Hn [Hc [Hiff Hfail]]]].
      destruct (streamError answer) as [e|] eqn:Hstream; cbn [fst snd].
      * rewrite Ht, Hn, Hc, Hfile. cbn [table nextId remoteCalls w2 andb].
        rewrite <- app_assoc. repeat split; auto; try discriminate.
        intros e' _. exists file. split; [now left | exact Hfile].
      * rewrite Ht, Hn, Hc, Hfile. cbn [table nextId remoteCalls w2 andb].
        rewrite <- app_assoc. repeat split; auto; try apply Hiff.
        intros e' He'. destruct (Hfail e' He') as [f [Hf Hno]].
        exists f. split; [now right | exact Hno].
Qed.

(** A download of validated ids is the queue of the transfers of the
    collected files. *)
Lemma downloadObjects_validated_run
    (localPath dirname : string) (ids : list Z) (w : World) :
  List.length (select typeValue (byIds ids) (table w)) = List.length ids ->
  downloadObjects typeValue env localPath dirname ids w
  = promiseAllLimit1
      (flat_map (expandFiles (table w)) (select typeValue (byIds ids) (table w)))
      (transfer env localPath dirname) w.
Proof.
  intros Hvalid.
  unfold downloadObjects, bind, findAll. cbn [fst snd].
  apply Nat.eqb_eq in Hvalid. rewrite Hvalid. cbn [negb].
  unfold ret at 1. now rewrite collectFiles_run.
Qed.

(** The run of a download whose count test fails: the first listed id
    without a row is named, or else the whole list. *)
Lemma downloadObjects_refused_run
    (localPath dirname : string) (ids : list Z) (w : World) :
  List.length (select typeValue (byIds ids) (table w)) <> List.length ids ->
  downloadObjects typeValue env localPath dirname ids w
  = (match find
             (fun v =>
                negb (includes
                        (map id (select typeValue (byIds ids) (table w))) v))
             ids with
     | Some missing => Thrown (NotFoundError (MsgNotFoundObjectQuoted missing))
     | None => Thrown (NotFoundError (MsgNotFoundAll ids))
     end, w).
Proof.
  intros Hdiffer. apply Nat.eqb_neq in Hdiffer.
  unfold downloadObjects, bind, findAll. cbn [fst snd].
  rewrite Hdiffer. cbn [negb]. rewrite forEach_missing.
  destruct (find _ ids); reflexivity.
Qed.

(** X13. A download never changes the index: whatever the ids and the
    answers of the remote adapter, the rows and the id counter are those it
    started from.  Its remote calls are decided by the count test of the
    handler: when the rows fetched by id are not as many as the ids listed
    (an id without a row, or an id listed twice) there is none; otherwise
    they are the [getObject] of each collected file, once each and in order,
    also after one of them failed. *)
Theorem downloadObjects_index_untouched
    (localPath dirname : string) (ids : list Z) (w : World) :
  let after := snd (downloadObjects typeValue env localPath dirname ids w) in
  let matched := select typeValue (byIds ids) (table w) in
  table after = table w
  /\ nextId after = nextId w
  /\ remoteCalls after
     = remoteCalls w
       ++ (if Nat.eqb (List.length matched) (List.length ids)
           then map (fun file => GetObject (path file))
                  (flat_map (expandFiles (table w)) matched)
           else []).
Proof.
  cbv zeta.
  destruct (Nat.eqb (List.length (select typeValue (byIds ids) (table w)))
              (List.length ids)) eqn:Hlength.
  - apply Nat.eqb_eq in Hlength.
    rewrite (downloadObjects_validated_run _ _ _ _ Hlength).
    pose proof (transfers_every_run localPath dirname
                  (flat_map (expandFiles (table w))
                     (select typeValue (byIds ids) (table w))) w) as Hrun.
    cbv zeta in Hrun. destruct Hrun as [Ht [Hn [Hc _]]]. auto.
  - apply Nat.eqb_neq in Hlength.
    rewrite (downloadObjects_refused_run _ _ _ _ Hlength). cbn [snd].
    now rewrite app_nil_r.
Qed.

(** X14. A download returns exactly when the count test of the handler
    passes -- the rows fetched by id are as many as the ids listed -- and
    every collected file was served and streamed to its end; otherwise it
    throws.  Ids that all have a row do not suffice: a list that repeats one
    fails the count test. *)
Theorem downloadObjects_returns_iff
    (localPath dirname : string) (ids : list Z) (w : World) :
  let matched := select typeValue (byIds ids) (table w) in
  let files := flat_map (expandFiles (table w)) matched in
  fst (downloadObjects typeValue env localPath dirname ids w) = Returned tt
  <-> List.length matched = List.length ids
      /\ (forall file, In file files ->
            exists result,
              getObjectAnswer env (path file) = inr result
              /\ streamError result = None).
Proof.
  intros matched files.
  destruct (Nat.eq_dec (List.length matched) (List.length ids))
    as [Hvalid|Hdiffer].
  - rewrite (downloadObjects_validated_run _ _ _ _ Hvalid).
    fold matched. fold files.
    pose proof (transfers_every_run localPath dirname files w) as Hrun.
    cbv zeta in Hrun. destruct Hrun as [_ [_ [_ [Hiff _]]]].
    rewrite Hiff, forallb_forall. unfold transferred.
    split.
    + intros Hall. split; [exact Hvalid|]. intros file Hin.
      specialize (Hall file Hin).
      destruct (getObjectAnswer env (path file)) as [|result]; [discriminate|].
      exists result. split; [reflexivity|].
      destruct (streamError result); [discriminate | reflexivity].
    + intros [_ Hall] file Hin.
      destruct (Hall file Hin) as [result [-> ->]]. reflexivity.
  - rewrite (downloadObjects_refused_run _ _ _ _ Hdiffer). cbn [fst].
    split; [|tauto].
    destruct (find _ ids); discriminate.
Qed.

End BulkMore.

Lemma downloadObjects_returns_iff_witness :
  fst (downloadObjects Sample.folderFirst Sample.reliable "/home/me/dl" ""
         [4%Z; 4%Z] Sample.tree) <> Returned tt
  /\ fst (downloadObjects Sample.folderFirst Sample.reliable "/home/me/dl" ""
            [4%Z] Sample.tree) = Returned tt.
Proof.
  split.
  - intros Hreturned.
    apply (downloadObjects_returns_iff Sample.folderFirst Sample.reliable
             "/home/me/dl" "" [4%Z; 4%Z] Sample.tree) in Hreturned.
    destruct Hreturned as [Hcount _]. vm_compute in Hcount. discriminate.
  - apply (downloadObjects_returns_iff Sample.folderFirst Sample.reliable
             "/home/me/dl" "" [4%Z] Sample.tree).
    split; [reflexivity|].
    intros file [<-|[]]. eexists. split; reflexivity.
Defined.

(** ** One object with its live metadata *)

Section ObjectView.

Variable typeValue : OBJECT_TYPE -> Z.
Variable env : Env.
Variable sign : SignedUrlRequest -> Error + string.

(** X15. [getObject] on an id that has no row throws its NotFoundError
    before anything else: the remote adapter is not called -- neither
    [headObject] nor a signing -- and nothing changes. *)
Theorem getObject_unknown_id (requested : Z) (w : World) :
  resolves (table w) requested = false ->
  getObject typeValue env sign requested w = (ViewNotFound, w, []).
Proof.
  intros Hmissing. unfold getObject. rewrite findOne_by_id.
  unfold resolves in Hmissing. apply find_none_existsb in Hmissing.
  now rewrite Hmissing.
Qed.

(** The world after the [headObject] of a path. *)
Lemma getObject_found_run (requested : Z) (w : World) (object : ObjectModel) :
  find (fun o => Z.eqb (id o) requested) (table w) = Some object ->
  getObject typeValue env sign requested w
  = let w1 := {| table := table w;
                 nextId := nextId w;
                 remoteCalls := remoteCalls w ++ [HeadObject (path object)];
                 localWrites := localWrites w |} in
    match headObjectAnswer env (path object) with
    | inl e => (ViewThrown e, w1, [])
    | inr headers =>
        match signingFor (path object) headers with
        | Some request =>
            (match sign request with
             | inl e => ViewThrown e
             | inr url =>
                 ViewReturned {| viewObject := object;
                                 viewUrl := Some url;
                                 viewObjectHeaders := headers |}
             end, w1, [request])
        | None =>
            (ViewReturned {| viewObject := object;
                             viewUrl := None;
                             viewObjectHeaders := headers |}, w1, [])
        end
    end.
Proof.
  intros Hfound. unfold getObject. rewrite findOne_by_id, Hfound.
  unfold s3_headObject, remote.
  destruct (headObjectAnswer env (path object)) as [e|headers]; [reflexivity|].
  destruct (signingFor (path object) headers) as [request|]; [|reflexivity].
  destruct (sign request); reflexivity.
Qed.

(** X16. For a row whose remote headers are served, [getObject] asks for a
    signed URL only for images and videos: one hour for an image, the
    adapter's default expiry for a video that is not an image, and no request
    at all otherwise, in which case the result has no [url].  In every case
    that returns, the result carries the row and the headers just read. *)
Theorem getObject_signing_policy
    (requested : Z) (w : World) (object : ObjectModel) (headers : Headers) :
  find (fun o => Z.eqb (id o) requested) (table w) = Some object ->
  headObjectAnswer env (path object) = inr headers ->
  let requests := snd (getObject typeValue env sign requested w) in
  let outcome := fst (fst (getObject typeValue env sign requested w)) in
  (requests
   = if contentTypeStartsWith headers "image/"
     then [{| signedPath := path object; expiresIn := Some 3600%Z |}]
     else if contentTypeStartsWith headers "video/"
     then [{| signedPath := path object; expiresIn := None |}]
     else [])
  /\ (forall result, outcome = ViewReturned result ->
        viewObject result = object
        /\ viewObjectHeaders result = headers
        /\ (viewUrl result = None <-> requests = [])
        /\ (forall url, viewUrl result = Some url ->
              exists request, requests = [request] /\ sign request = inr url)).
Proof.
  intros Hfound Hhead. cbv zeta.
  rewrite (getObject_found_run _ _ _ Hfound). cbv zeta. rewrite Hhead.
  unfold signingFor.
  destruct (contentTypeStartsWith headers "image/");
    [|destruct (contentTypeStartsWith headers "video/")].
  - cbn [fst snd]. split; [reflexivity|].
    destruct (sign _) as [e|url] eqn:Hsign; intros result [= <-].
    cbn. repeat split; try discriminate.
    intros u [= <-]. eexists. split; [reflexivity | exact Hsign].
  - cbn [fst snd]. split; [reflexivity|].
    destruct (sign _) as [e|url] eqn:Hsign; intros result [= <-].
    cbn. repeat split; try discriminate.
    intros u [= <-]. eexists. split; [reflexivity | exact Hsign].
  - cbn [fst snd]. split; [reflexivity|].
    intros result [= <-]. cbn. repeat split; auto; discriminate.
Qed.

(** X17. [getObject] reads: the index is never changed, and for a row that
    exists the one call to the bucket is the [headObject] of its path; when
    that call fails, its error is the outcome and no URL is signed. *)
Theorem getObject_reads_once
    (requested : Z) (w : World) (object : ObjectModel) :
  find (fun o => Z.eqb (id o) requested) (table w) = Some object ->
  let run := getObject typeValue env sign requested w in
  table (snd (fst run)) = table w
  /\ nextId (snd (fst run)) = nextId w
  /\ remoteCalls (snd (fst run))
     = remoteCalls w ++ [HeadObject (path object)]
  /\ (forall e, headObjectAnswer env (path object) = inl e ->
        fst (fst run) = ViewThrown e /\ snd run = []).
Proof.
  intros Hfound. cbv zeta.
  rewrite (getObject_found_run _ _ _ Hfound). cbv zeta.
  destruct (headObjectAnswer env (path object)) as [e|headers].
  - cbn. split; [reflexivity|]. split; [reflexivity|]. split; [reflexivity|].
    intros e' [= <-]. split; reflexivity.
  - destruct (signingFor (path object) headers) as [request|]; cbn;
      (split; [reflexivity|]; split; [reflexivity|]; split; [reflexivity|]);
      discriminate.
Qed.

End ObjectView.

Lemma getObject_unknown_id_witness :
  getObject Sample.folderFirst Fixture.pictures Fixture.signer 9 Sample.tree
  = (ViewNotFound, Sample.tree, []).
Proof.
  exact (getObject_unknown_id Sample.folderFirst Fixture.pictures
           Fixture.signer 9%Z Sample.tree eq_refl).
Defined.

Lemma getObject_signing_policy_witness :
  snd (getObject Sample.folderFirst Fixture.pictures Fixture.signer 3
         Sample.tree)
  = [{| signedPath := "a/b/x.txt"; expiresIn := Some 3600%Z |}].
Proof.
  exact (proj1 (getObject_signing_policy Sample.folderFirst Fixture.pictures
                  Fixture.signer 3%Z Sample.tree
                  (Sample.row 3 FILE "a/b/x.txt")
                  {| ContentType := Some "image/jpeg"; ContentLength := 10;
                     LastModified := 99 |}
                  eq_refl eq_refl)).
Defined.

Lemma getObject_reads_once_witness :
  remoteCalls
    (snd (fst (getObject Sample.folderFirst Fixture.pictures Fixture.signer 3
                 Sample.tree)))
  = [HeadObject "a/b/x.txt"].
Proof.
  exact (proj1 (proj2 (proj2
           (getObject_reads_once Sample.folderFirst Fixture.pictures
              Fixture.signer 3%Z Sample.tree (Sample.row 3 FILE "a/b/x.txt")
              eq_refl)))).
Defined.

(** ** The S3 settings *)

Section SettingsProperties.

Import SettingsHandler.

(** X18. [updateS3Settings] with a secret that is absent or the empty string
    keeps the secret already stored, while the four other fields take the
    values given; any other secret replaces the stored one. *)
Theorem updateS3Settings_blank_secret_kept
    (args : UpdateArguments) (stored : Settings) (w : SettingsWorld) :
  mainSettings w = Some stored ->
  let row := fst (updateS3Settings args w) in
  accessKeyId row = argAccessKeyId args
  /\ region row = argRegion args
  /\ bucket row = argBucket args
  /\ endpoint row = argEndpoint args
  /\ (argSecretAccessKey args = None \/ argSecretAccessKey args = Some ""%string ->
      secretAccessKey row = secretAccessKey stored)
  /\ (forall secret, argSecretAccessKey args = Some secret ->
      secret <> ""%string ->
      secretAccessKey row = Some secret).
Proof.
  intros Hstored. cbv zeta. unfold updateS3Settings, upsert. cbn.
  rewrite Hstored. repeat (split; [reflexivity|]). split.
  - intros [-> | ->]; reflexivity.
  - intros secret -> Hsecret. cbn. unfold JsString.truthy.
    destruct (String.eqb_spec secret ""); [contradiction | reflexivity].
Qed.

End SettingsProperties.

Lemma updateS3Settings_blank_secret_kept_witness :
  SettingsHandler.secretAccessKey
    (fst (SettingsHandler.updateS3Settings
            {| SettingsHandler.argAccessKeyId := "AKIB";
               SettingsHandler.argSecretAccessKey := Some "";
               SettingsHandler.argRegion := "us-east-1";
               SettingsHandler.argBucket := "other";
               SettingsHandler.argEndpoint := "" |}
            Fixture.configured))
  = Some "s3cr3t"%string.
Proof.
  exact (proj1 (proj2 (proj2 (proj2 (proj2
           (updateS3Settings_blank_secret_kept
              {| SettingsHandler.argAccessKeyId := "AKIB";
                 SettingsHandler.argSecretAccessKey := Some ""%string;
                 SettingsHandler.argRegion := "us-east-1";
                 SettingsHandler.argBucket := "other";
                 SettingsHandler.argEndpoint := "" |}
              Fixture.storedSettings Fixture.configured eq_refl)))))
           (or_intror eq_refl)).
Defined.

(** ** The settings page *)

Section SettingsPageProperties.

Import SettingsHandler SettingsPage.

(** X20. Submitting the form as [generateS3SettingsInitialValues] filled it
    from the stored settings changes nothing: the form never shows the
    secret, the empty field is sent as [undefined], and the handler then
    keeps the stored secret, so the row returned is the stored row. *)
Theorem untouched_form_keeps_settings (stored : Settings) (w : SettingsWorld) :
  mainSettings w = Some stored ->
  updateS3Settings
    (submittedArguments (generateS3SettingsInitialValues (Some stored))) w
  = (stored, {| mainSettings := Some stored; adapter := Some stored |}).
Proof.
  intros Hstored. unfold updateS3Settings, upsert. cbn. rewrite Hstored.
  destruct stored; reflexivity.
Qed.

(** Releasing a request id that was fresh when it was added gives the pool
    back. *)
Lemma deleteRequest_absent (requestId : string) (pool : list string) :
  existsb (String.eqb requestId) pool = false ->
  deleteRequest requestId pool = pool.
Proof.
  unfold deleteRequest. induction pool as [|other pool IH]; [reflexivity|].
  cbn. intros H. apply orb_false_iff in H as [Hother Hpool].
  rewrite Hother. cbn. now rewrite IH.
Qed.

Lemma deleteRequest_gone (requestId : string) (pool : list string) :
  existsb (String.eqb requestId) (deleteRequest requestId pool) = false.
Proof.
  unfold deleteRequest. induction pool as [|other pool IH]; [reflexivity|].
  cbn. destruct (String.eqb requestId other) eqn:Hother; cbn; [exact IH|].
  now rewrite Hother.
Qed.

Lemma deleteRequest_added (requestId : string) (pool : list string) :
  existsb (String.eqb requestId) pool = false ->
  deleteRequest requestId (addRequest requestId pool) = pool.
Proof.
  intros Hfresh. unfold addRequest. rewrite Hfresh.
  unfold deleteRequest. rewrite filter_app. cbn.
  rewrite String.eqb_refl. cbn. rewrite app_nil_r.
  now apply deleteRequest_absent.
Qed.

(** X21. [onClickSyncButton] always ends with the busy class removed and
    its request id out of the pool -- the pool is as before when the id was
    fresh.  [isSyncSuccess] ends true exactly when the sync succeeded, an
    error box is shown exactly when it failed, and the settings, the store
    and the form are not touched. *)
Theorem onClickSyncButton_outcome
    (requestId : string) (syncFailure : option Error) (p : Page) :
  let p' := onClickSyncButton requestId syncFailure p in
  isSyncSuccess (state p')
  = match syncFailure with None => true | Some _ => false end
  /\ effects p'
     = effects p ++ [PreventDefault; AddBusyClass; SyncObjectsFromS3]
       ++ match syncFailure with
          | Some error => [ShowErrorBox error]
          | None => []
          end
       ++ [RemoveBusyClass]
  /\ existsb (String.eqb requestId) (requestPool (state p')) = false
  /\ (existsb (String.eqb requestId) (requestPool (state p)) = false ->
      requestPool (state p') = requestPool (state p))
  /\ settings (state p') = settings (state p)
  /\ isSubmitSuccess (state p') = isSubmitSuccess (state p)
  /\ storeSettings p' = storeSettings p
  /\ form p' = form p.
Proof.
  destruct p as [[pool current submitted synced] stored values done].
  destruct syncFailure as [error|];
    lazy -[deleteRequest addRequest existsb app];
    rewrite <- !app_assoc; cbn [app];
    (split; [reflexivity|]; split; [reflexivity|];
     split; [apply deleteRequest_gone|];
     split; [apply deleteRequest_added|]);
    repeat split.
Qed.

(** X22. [onSubmitUpdateS3SettingsForm] reports success, updates the store
    and the component's settings, and resets the form (with an empty secret
    field) only when both the update and the sync that follows succeeded.
    When the update fails no sync is requested; when either fails one error
    box is shown and store, settings and form stay as they were -- also when
    the update itself had gone through.  The request id is always released
    and the busy class removed. *)
Theorem onSubmitUpdateS3SettingsForm_outcome
    (requestId : string) (values : FormValues)
    (updateOutcome : Error + Settings) (syncFailure : option Error)
    (p : Page) :
  let p' :=
    onSubmitUpdateS3SettingsForm requestId values updateOutcome syncFailure p in
  let sent := [AddBusyClass; UpdateS3Settings (submittedArguments values)] in
  existsb (String.eqb requestId) (requestPool (state p')) = false
  /\ (existsb (String.eqb requestId) (requestPool (state p)) = false ->
      requestPool (state p') = requestPool (state p))
  /\ isSyncSuccess (state p') = isSyncSuccess (state p)
  /\ match updateOutcome, syncFailure with
     | inr result, None =>
         isSubmitSuccess (state p') = true
         /\ storeSettings p' = Some result
         /\ settings (state p') = Some result
         /\ form p' = generateS3SettingsInitialValues (Some result)
         /\ formSecretAccessKey (form p') = ""%string
         /\ effects p'
            = effects p ++ sent ++ [SyncObjectsFromS3; RemoveBusyClass]
     | inr _, Some error =>
         isSubmitSuccess (state p') = false
         /\ storeSettings p' = storeSettings p
         /\ settings (state p') = settings (state p)
         /\ form p' = form p
         /\ effects p'
            = effects p ++ sent
              ++ [SyncObjectsFromS3; ShowErrorBox error; RemoveBusyClass]
     | inl error, _ =>
         isSubmitSuccess (state p') = false
         /\ storeSettings p' = storeSettings p
         /\ settings (state p') = settings (state p)
         /\ form p' = form p
         /\ effects p'
            = effects p ++ sent ++ [ShowErrorBox error; RemoveBusyClass]
     end.
Proof.
  destruct p as [[pool current submitted synced] stored shown done].
  destruct updateOutcome as [error|result]; [|destruct syncFailure as [error|]];
    lazy -[deleteRequest addRequest existsb app submittedArguments
           generateS3SettingsInitialValues formSecretAccessKey];
    rewrite <- !app_assoc; cbn [app];
    (split; [apply deleteRequest_gone|];
     split; [apply deleteRequest_added|];
     split; [reflexivity|]);
    repeat split.
Qed.

End SettingsPageProperties.

Lemma untouched_form_keeps_settings_witness :
  SettingsHandler.updateS3Settings
    (SettingsPage.submittedArguments (SettingsPage.form Fixture.idle))
    Fixture.configured
  = (Fixture.storedSettings, Fixture.configured).
Proof.
  exact (untouched_form_keeps_settings Fixture.storedSettings
           Fixture.configured eq_refl).
Defined.
